(** * bitmex_trade_buckets.py: gap reconciliation and live capture of
      one-minute trade buckets

    A shallow embedding of [src/bitmex_trade_buckets.py].

    Conventions of the model.
    - Instants are POSIX timestamps.  Python holds them as floats
      ([datetime.timestamp()]); here they are integers [Z] counted in seconds,
      so [60] is a minute and [2*60*60] two hours, and the arithmetic of the
      source ([-], [+], [min], [<=]) is exact.
    - Everything the program cannot decide itself is an oracle of the
      environment [Env]: the wall clock, whether MySQL executes a statement,
      what the REST endpoint answers, what the websocket does.  The k-th call
      of an operation consults the k-th entry of its oracle; the counters live
      in the state [World].
    - Python code that can raise runs in the monad [M]: a computation either
      returns, raises, or is stopped in the state it has reached when the fuel
      given to its loops runs out. *)

From Stdlib Require Import ZArith List String Bool Lia QArith.
Import ListNotations.
Open Scope Z_scope.

Set Implicit Arguments.

(** ** Data *)

(** One element of the list answered by [Trade.Trade_getBucketed], and the
    argument of [insert_trade_bucket].  [timestamp] and [symbol] are read with
    [trade_bucket['...']] and are always present in the bucket records that
    reach [insert_trade_bucket]; every other key is read with
    [trade_bucket[k] if k in trade_bucket else None]. *)
Record TradeBucket := mkTradeBucket {
  timestamp : Z;
  symbol : string;
  open : option Q;
  high : option Q;
  low : option Q;
  close : option Q;
  trades : option Q;
  volume : option Q;
  vwap : option Q;
  lastSize : option Q;
  turnover : option Q;
  homeNotional : option Q;
  foreignNotional : option Q
}.

(** Modelled from the spec: the table [tradeBin1m] is created outside this
    file; its columns are those named by the INSERT statement and its primary
    key is [(timestamp_dt, symbol)] (section 3: "(timestamp, symbol) uniquely
    identifies a bucket"; the source says the same in [capture_data]). *)
Record Row := mkRow {
  timestamp_dt : Z;
  row_symbol : string;
  open_px : option Q;
  high_px : option Q;
  low_px : option Q;
  close_px : option Q;
  row_trades : option Q;
  row_volume : option Q;
  row_vwap : option Q;
  last_size : option Q;
  row_turnover : option Q;
  home_notional : option Q;
  foreign_notional : option Q
}.

Definition primary_key (r : Row) : Z * string := (timestamp_dt r, row_symbol r).

Definition key_eqb (k1 k2 : Z * string) : bool :=
  Z.eqb (fst k1) (fst k2) && String.eqb (snd k1) (snd k2).

Definition has_key (k : Z * string) (t : list Row) : bool :=
  existsb (fun r => key_eqb (primary_key r) k) t.

(** A record of an incremental frame of the live feed, before
    [capture_data] has checked it: keys may be missing.  ['timestamp'] arrives
    as text; [Some None] is a text that [iso8601.parse_date] rejects. *)
Record LiveBucket := mkLiveBucket {
  lb_timestamp : option (option Z);
  lb_symbol : option string;
  lb_open : option Q;
  lb_high : option Q;
  lb_low : option Q;
  lb_close : option Q;
  lb_trades : option Q;
  lb_volume : option Q;
  lb_vwap : option Q;
  lb_lastSize : option Q;
  lb_turnover : option Q;
  lb_homeNotional : option Q;
  lb_foreignNotional : option Q
}.

(** Default for [data['data'][-1]], never reached: the payload is checked to
    be non-empty first. *)
Definition None_bucket : LiveBucket :=
  mkLiveBucket None None None None None None None None None None None None None.

(** A websocket frame after [json.loads]. *)
Record Frame := mkFrame {
  f_table : option string;
  f_action : option string;
  f_data : option (list LiveBucket)
}.

(** What [websocket.recv()] does: raise, or deliver a text, which
    [json.loads] either rejects ([None]) or turns into a frame. *)
Inductive RecvResult :=
| RecvRaises
| RecvText (parsed : option Frame).

(** ** Environment and state *)

Record Env := mkEnv {
  (** k-th reading of [datetime.utcnow()] *)
  utcnow : nat -> Z;
  (** does the k-th statement sent to MySQL go through? *)
  mysql_up : nat -> bool;
  (** k-th call of [Trade_getBucketed] with its [startTime]; [None]: the
      request raises; [Some l]: the pair [(l, response)] comes back *)
  Trade_getBucketed : nat -> Z -> option (list TradeBucket);
  (** does the k-th [websockets.connect] succeed? *)
  ws_connect : nat -> bool;
  (** k-th reading of [websocket.open] *)
  ws_open : nat -> bool;
  (** k-th [websocket.recv()] *)
  ws_recv : nat -> RecvResult
}.

(** History of the live path, kept for stating properties of runs. *)
Inductive LiveEvent :=
| EvConnected
| EvPartial
| EvInsert (b : TradeBucket).

Record World := mkWorld {
  tradeBin1m : list Row;
  clock_reads : nat;
  db_calls : nat;
  (** [startTime] of every REST request issued, oldest first *)
  requests : list Z;
  ws_connects : nat;
  ws_open_reads : nat;
  ws_recvs : nat;
  live_log : list LiveEvent
}.

(** Updates of one component of the state. *)
Definition tick_clock (w : World) : World :=
  mkWorld (tradeBin1m w) (S (clock_reads w)) (db_calls w) (requests w)
          (ws_connects w) (ws_open_reads w) (ws_recvs w) (live_log w).

Definition tick_db (w : World) : World :=
  mkWorld (tradeBin1m w) (clock_reads w) (S (db_calls w)) (requests w)
          (ws_connects w) (ws_open_reads w) (ws_recvs w) (live_log w).

Definition add_row (r : Row) (w : World) : World :=
  mkWorld ((tradeBin1m w ++ [r])%list) (clock_reads w) (db_calls w) (requests w)
          (ws_connects w) (ws_open_reads w) (ws_recvs w) (live_log w).

Definition add_request (s : Z) (w : World) : World :=
  mkWorld (tradeBin1m w) (clock_reads w) (db_calls w) ((requests w ++ [s])%list)
          (ws_connects w) (ws_open_reads w) (ws_recvs w) (live_log w).

Definition with_live (w : World) (connects opens recvs : nat)
    (log : list LiveEvent) : World :=
  mkWorld (tradeBin1m w) (clock_reads w) (db_calls w) (requests w)
          connects opens recvs log.

Inductive exn :=
| OperationalError
| IntegrityError
| RequestError
| ConnectError
| ConnectionClosed
| JSONDecodeError
| ParseError.

Inductive result (A : Type) :=
| Return (a : A) (w : World)
| Raise (e : exn) (w : World)
| OutOfFuel (w : World).

Arguments Raise {A} e w.
Arguments OutOfFuel {A} w.

Definition M (A : Type) := World -> result A.

Definition ret {A} (a : A) : M A := fun w => Return a w.

Definition bind {A B} (m : M A) (k : A -> M B) : M B :=
  fun w => match m w with
           | Return a w' => k a w'
           | Raise e w' => Raise e w'
           | OutOfFuel w' => OutOfFuel w'
           end.

Definition raise {A} (e : exn) : M A := fun w => Raise e w.

(** [try: m  except Exception: h] *)
Definition try_except {A} (m : M A) (h : exn -> M A) : M A :=
  fun w => match m w with
           | Return a w' => Return a w'
           | Raise e w' => h e w'
           | OutOfFuel w' => OutOfFuel w'
           end.

Declare Scope py_scope.
Delimit Scope py_scope with py.
Notation "x <- m ;; k" := (bind m (fun x => k))
  (at level 61, m at next level, right associativity) : py_scope.
Notation "m ;;; k" := (bind m (fun _ => k))
  (at level 61, right associativity) : py_scope.
Open Scope py_scope.

Section Program.

Variable env : Env.

(** ** Primitive effects *)

(** [datetime.utcnow().replace(tzinfo=timezone.utc).timestamp()] *)
Definition now_utc : M Z :=
  fun w => Return (utcnow env (clock_reads w)) (tick_clock w).

(** [cursor.execute(INSERT ...); connection.commit()]: raises when MySQL is
    unreachable and when the primary key is already taken. *)
Definition execute_insert (r : Row) : M unit :=
  fun w =>
    if mysql_up env (db_calls w) then
      if has_key (primary_key r) (tradeBin1m w) then Raise IntegrityError (tick_db w)
      else Return tt (add_row r (tick_db w))
    else Raise OperationalError (tick_db w).

(** [SELECT MAX(timestamp_dt)] over the table: NULL on an empty table. *)
Fixpoint sql_max (t : list Row) : option Z :=
  match t with
  | [] => None
  | r :: t' => match sql_max t' with
               | None => Some (timestamp_dt r)
               | Some m => Some (Z.max (timestamp_dt r) m)
               end
  end.

(** [cursor.execute(SELECT MAX ...); cursor.fetchone()]: the one row of the
    answer, whose column [max_timestamp_dt] may be NULL. *)
Definition execute_select_max : M (option (option Z)) :=
  fun w =>
    if mysql_up env (db_calls w) then Return (Some (sql_max (tradeBin1m w))) (tick_db w)
    else Raise OperationalError (tick_db w).

(** [strftime("%Y-%m-%d %H:%M")] of a UTC instant: the text names a minute;
    it is represented by the instant at which that minute begins. *)
Definition start_time_str (start_time : Z) : Z := 60 * (start_time / 60).

(** [bitmex_client.Trade.Trade_getBucketed(..., count=120,
    filter={"startTime": s}).result()], followed by [len(trades[0])]. *)
Definition getBucketed (s : Z) : M (list TradeBucket) :=
  fun w =>
    match Trade_getBucketed env (List.length (requests w)) s with
    | Some l => Return l (add_request s w)
    | None => Raise RequestError (add_request s w)
    end.

(** ** insert_trade_bucket *)

Definition row_of (b : TradeBucket) : Row :=
  mkRow (timestamp b) (symbol b) (open b) (high b) (low b) (close b) (trades b)
        (volume b) (vwap b) (lastSize b) (turnover b) (homeNotional b)
        (foreignNotional b).

Definition insert_trade_bucket (trade_bucket : TradeBucket) : M unit :=
  try_except (execute_insert (row_of trade_bucket))
             (fun _ => ret tt).

(** ** get_max_timestamp_of_trade_buckets *)

Definition get_max_timestamp_of_trade_buckets : M (option Z) :=
  max_timestamp_dt <-
    try_except
      (result <- execute_select_max ;;
       ret (match result with
            | None => None
            | Some row => row
            end))
      (fun _ => ret None) ;;
  ret max_timestamp_dt.

(** ** fill_gaps *)

(** [for k in range(0, len(trades[0])): insert_trade_bucket(trades[0][k])] *)
Fixpoint insert_all (l : list TradeBucket) : M unit :=
  match l with
  | [] => ret tt
  | b :: l' => insert_trade_bucket b ;;; insert_all l'
  end.

(** The body of the [while] loop: from the locals [start_time] (and the
    sampled [now], which the body overwrites) to their next values. *)
(* [time.sleep(2)] has no effect but to let time pass, which the next
   reading of the clock shows. *)
Definition fill_gaps_body (start_time : Z) : M (Z * Z) :=
  trades <- try_except (l <- getBucketed (start_time_str start_time) ;; ret (Some l))
                       (fun _ => ret None) ;;
  start_time' <- match trades with
                 | Some l => insert_all l ;;; ret (start_time + 2*60*60)
                 | None => ret start_time
                 end ;;
  now <- now_utc ;;
  ret (start_time', now).

(** [while start_time <= now: ...]; returns the locals at exit. *)
Fixpoint fill_gaps_loop (fuel : nat) (start_time now : Z) : M (Z * Z) :=
  if start_time <=? now then
    match fuel with
    | O => fun w => OutOfFuel w
    | S fuel' =>
        sn <- fill_gaps_body start_time ;;
        fill_gaps_loop fuel' (fst sn) (snd sn)
    end
  else ret (start_time, now).

Definition default_horizon : Z := 21*24*60*60.

Definition fill_gaps (fuel : nat) (horizon : Z) : M unit :=
  now <- now_utc ;;
  max_timestamp_dt <- get_max_timestamp_of_trade_buckets ;;
  let max_timestamp_dt := match max_timestamp_dt with
                          | None => now
                          | Some t => t
                          end in
  let twenty_one_days_ago := now - horizon in
  let start_time := Z.min twenty_one_days_ago max_timestamp_dt + 60 in
  fill_gaps_loop fuel start_time now ;;; ret tt.

(** ** capture_data *)

(** [await websockets.connect(uri)] *)
Definition websockets_connect : M unit :=
  fun w =>
    if ws_connect env (ws_connects w) then
      Return tt (with_live w (S (ws_connects w)) (ws_open_reads w) (ws_recvs w)
                   ((live_log w ++ [EvConnected])%list))
    else
      Raise ConnectError
        (with_live w (S (ws_connects w)) (ws_open_reads w) (ws_recvs w) (live_log w)).

(** [websocket.open] *)
Definition websocket_open : M bool :=
  fun w =>
    Return (ws_open env (ws_open_reads w))
      (with_live w (ws_connects w) (S (ws_open_reads w)) (ws_recvs w) (live_log w)).

(** [await websocket.recv()]: the text received, given by what [json.loads]
    makes of it. *)
Definition websocket_recv : M (option Frame) :=
  fun w =>
    let w' := with_live w (ws_connects w) (ws_open_reads w) (S (ws_recvs w))
                (live_log w) in
    match ws_recv env (ws_recvs w) with
    | RecvRaises => Raise ConnectionClosed w'
    | RecvText parsed => Return parsed w'
    end.

Definition json_loads (text : option Frame) : M Frame :=
  match text with
  | Some data => ret data
  | None => raise JSONDecodeError
  end.

Definition iso8601_parse_date (text : option Z) : M Z :=
  match text with
  | Some t => ret t
  | None => raise ParseError
  end.

Definition log_live (ev : LiveEvent) : M unit :=
  fun w =>
    Return tt (with_live w (ws_connects w) (ws_open_reads w) (ws_recvs w)
                 ((live_log w ++ [ev])%list)).

(** [last_insert] once its ['timestamp'] has been replaced by the parsed
    instant; ['symbol'] has been checked to be present. *)
Definition bucket_of (last_insert : LiveBucket) (t : Z) (sym : string) : TradeBucket :=
  mkTradeBucket t sym (lb_open last_insert) (lb_high last_insert)
    (lb_low last_insert) (lb_close last_insert) (lb_trades last_insert)
    (lb_volume last_insert) (lb_vwap last_insert) (lb_lastSize last_insert)
    (lb_turnover last_insert) (lb_homeNotional last_insert)
    (lb_foreignNotional last_insert).

(** The locals that survive an iteration of [while True]. *)
Record Locals := mkLocals {
  rcvd_tradeBin1m_partial : bool;
  when_outage_occurred : option Z
}.

(** [if not when_outage_occurred: when_outage_occurred = <now>]: Python finds
    [None] and the number zero false. *)
Definition mark_outage (when_outage : option Z) : M Z :=
  match when_outage with
  | None => now_utc
  | Some t => if t =? 0 then now_utc else ret t
  end.

(** The [except Exception:] block of the receive. *)
Definition on_recv_error (fuel : nat) (l : Locals) : M Locals :=
  outage <- mark_outage (when_outage_occurred l) ;;
  now <- now_utc ;;
  let horizon := now - outage + 5*60 in
  fill_gaps fuel horizon ;;;
  ret (mkLocals (rcvd_tradeBin1m_partial l) (Some outage)).

(** The statements after the [try]: every [continue] returns the locals. *)
Definition on_frame (l : Locals) (text : option Frame) : M Locals :=
  data <- json_loads text ;;
  match f_table data, f_action data with
  | Some table, Some action =>
      if String.eqb table "tradeBin1m" && String.eqb action "partial" then
        log_live EvPartial ;;;
        ret (mkLocals true (when_outage_occurred l))
      else if negb (rcvd_tradeBin1m_partial l) then ret l
      else
        match f_data data with
        | None => ret l
        | Some payload =>
            if (Z.of_nat (List.length payload) <=? 0) then ret l
            else
              let last_insert := last payload None_bucket in
              match lb_timestamp last_insert, lb_symbol last_insert with
              | Some text, Some sym =>
                  if negb (String.eqb sym "XBTUSD") then ret l
                  else
                    t <- iso8601_parse_date text ;;
                    let b := bucket_of last_insert t sym in
                    log_live (EvInsert b) ;;;
                    insert_trade_bucket b ;;;
                    ret l
              | _, _ => ret l
              end
        end
  | _, _ => ret l
  end.

(** The head of an iteration: [if not websocket.open: websocket = await
    websockets.connect(uri)] and [if websocket.open: when_outage_occurred =
    None]. *)
Definition reconnect_if_closed (l : Locals) : M Locals :=
  is_open <- websocket_open ;;
  (if negb is_open then websockets_connect else ret tt) ;;;
  is_open <- websocket_open ;;
  ret (if is_open then mkLocals (rcvd_tradeBin1m_partial l) None else l).

(** The rest of an iteration: the [try] around [recv], its [except] block
    (which ends in [continue]), and the handling of the frame. *)
Definition receive (fuel : nat) (l : Locals) : M Locals :=
  received <- try_except (text <- websocket_recv ;; ret (inr text))
                         (fun _ => l' <- on_recv_error fuel l ;; ret (inl l')) ;;
  match received with
  | inl l' => ret l'
  | inr text => on_frame l text
  end.

(** One iteration of [while True]. *)
Definition capture_body (fuel : nat) (l : Locals) : M Locals :=
  l <- reconnect_if_closed l ;;
  receive fuel l.

Fixpoint capture_loop (n fuel : nat) (l : Locals) : M unit :=
  match n with
  | O => fun w => OutOfFuel w
  | S n' => l' <- capture_body fuel l ;; capture_loop n' fuel l'
  end.

(** [n] bounds the iterations of [while True] that are run, [fuel] those of
    each [fill_gaps]. *)
Definition capture_data (n fuel : nat) : M unit :=
  fill_gaps fuel default_horizon ;;;
  websockets_connect ;;;
  capture_loop n fuel (mkLocals false None).

End Program.

(** * Properties *)

Ltac run := unfold bind, ret, raise, try_except in *; simpl in *.

(** ** The store *)

Section Store.

Variable env : Env.

(** The state in which [insert_trade_bucket] leaves the world. *)
Definition after_insert (b : TradeBucket) (w : World) : World :=
  if mysql_up env (db_calls w) && negb (has_key (primary_key (row_of b)) (tradeBin1m w))
  then add_row (row_of b) (tick_db w)
  else tick_db w.

Lemma insert_trade_bucket_eq b w :
  insert_trade_bucket env b w = Return tt (after_insert b w).
Proof.
  unfold insert_trade_bucket, try_except, execute_insert, after_insert.
  destruct (mysql_up env (db_calls w)); simpl; [|reflexivity].
  destruct (has_key _ _); reflexivity.
Qed.

Definition after_insert_all (l : list TradeBucket) (w : World) : World :=
  fold_left (fun w b => after_insert b w) l w.

Lemma insert_all_eq l : forall w,
  insert_all env l w = Return tt (after_insert_all l w).
Proof.
  induction l as [|b l IH]; intros w; simpl.
  - reflexivity.
  - unfold bind. rewrite insert_trade_bucket_eq. apply IH.
Qed.

(** Inserting touches the table and the statement counter only. *)
Definition same_io (w w' : World) : Prop :=
  clock_reads w' = clock_reads w /\ requests w' = requests w /\
  ws_connects w' = ws_connects w /\ ws_open_reads w' = ws_open_reads w /\
  ws_recvs w' = ws_recvs w /\ live_log w' = live_log w.

Lemma same_io_refl w : same_io w w.
Proof. repeat split. Qed.

Lemma same_io_trans w1 w2 w3 : same_io w1 w2 -> same_io w2 w3 -> same_io w1 w3.
Proof. unfold same_io; intuition congruence. Qed.

Lemma after_insert_io b w : same_io w (after_insert b w).
Proof.
  unfold after_insert. destruct (_ && _); repeat split.
Qed.

Lemma after_insert_all_io l : forall w, same_io w (after_insert_all l w).
Proof.
  induction l as [|b l IH]; intros w; simpl.
  - apply same_io_refl.
  - eapply same_io_trans; [apply after_insert_io | apply IH].
Qed.

Lemma key_eqb_eq k1 k2 : key_eqb k1 k2 = true <-> k1 = k2.
Proof.
  destruct k1 as [t1 s1], k2 as [t2 s2]; unfold key_eqb; simpl.
  rewrite andb_true_iff, Z.eqb_eq, String.eqb_eq.
  split; [intros [-> ->]; reflexivity | intros H; inversion H; auto].
Qed.

Lemma has_key_In k t : has_key k t = true <-> In k (map primary_key t).
Proof.
  unfold has_key. rewrite existsb_exists, in_map_iff.
  split; intros [r [H1 H2]]; exists r.
  - apply key_eqb_eq in H2. auto.
  - split; [auto | apply key_eqb_eq; auto].
Qed.

Lemma has_key_app k t r :
  has_key k (t ++ [r]) = has_key k t || key_eqb (primary_key r) k.
Proof.
  unfold has_key. rewrite existsb_app. simpl. rewrite orb_false_r. reflexivity.
Qed.

Lemma key_eqb_refl k : key_eqb k k = true.
Proof. apply key_eqb_eq. reflexivity. Qed.

(** Once the key of [b] is in the table, [insert_trade_bucket b] leaves the
    table as it is. *)
Lemma after_insert_present b w :
  has_key (primary_key (row_of b)) (tradeBin1m w) = true ->
  tradeBin1m (after_insert b w) = tradeBin1m w.
Proof.
  intros H. unfold after_insert. rewrite H, andb_false_r. reflexivity.
Qed.

Lemma after_insert_reached b w :
  mysql_up env (db_calls w) = true ->
  has_key (primary_key (row_of b)) (tradeBin1m (after_insert b w)) = true.
Proof.
  intros Hup. unfold after_insert. rewrite Hup. simpl.
  destruct (has_key _ (tradeBin1m w)) eqn:E; simpl.
  - exact E.
  - rewrite has_key_app, key_eqb_refl, orb_true_r. reflexivity.
Qed.

Lemma after_insert_NoDup b w :
  NoDup (map primary_key (tradeBin1m w)) ->
  NoDup (map primary_key (tradeBin1m (after_insert b w))).
Proof.
  intros H. unfold after_insert.
  destruct (mysql_up env (db_calls w)); simpl; [|exact H].
  destruct (has_key _ _) eqn:E; simpl; [exact H|].
  rewrite map_app. simpl.
  apply NoDup_app.
  - exact H.
  - constructor; [intros [] | constructor].
  - intros k Hk [<- | []]. apply has_key_In in Hk. congruence.
Qed.

End Store.

(** ** fill_gaps, unfolded *)

Section Gaps.

Variable env : Env.

(** The answer that the request of the iteration starting in [w] gets. *)
Definition fetch_at (start_time : Z) (w : World) : option (list TradeBucket) :=
  Trade_getBucketed env (List.length (requests w)) (start_time_str start_time).

(** [start_time] after one iteration of the loop. *)
Definition next_start (start_time : Z) (w : World) : Z :=
  match fetch_at start_time w with
  | Some _ => start_time + 2*60*60
  | None => start_time
  end.

(** The world after one iteration of the loop. *)
Definition after_body (start_time : Z) (w : World) : World :=
  let w1 := add_request (start_time_str start_time) w in
  tick_clock (match fetch_at start_time w with
              | Some l => after_insert_all env l w1
              | None => w1
              end).

Lemma fill_gaps_body_eq start_time w :
  fill_gaps_body env start_time w =
  Return (next_start start_time w, utcnow env (clock_reads w)) (after_body start_time w).
Proof.
  unfold fill_gaps_body, next_start, after_body, fetch_at, getBucketed.
  unfold bind at 1. unfold try_except, bind at 1.
  destruct (Trade_getBucketed env _ _) as [l|]; simpl.
  - unfold bind at 1. unfold bind at 1. rewrite insert_all_eq.
    unfold ret at 1. unfold bind, now_utc, ret.
    destruct (after_insert_all_io env l (add_request (start_time_str start_time) w))
      as [Hc _].
    rewrite Hc. reflexivity.
  - reflexivity.
Qed.

Lemma after_body_clock start_time w :
  clock_reads (after_body start_time w) = S (clock_reads w).
Proof.
  unfold after_body. destruct (fetch_at start_time w) as [l|]; simpl; [|reflexivity].
  destruct (after_insert_all_io env l (add_request (start_time_str start_time) w))
    as [Hc _].
  rewrite Hc. reflexivity.
Qed.

Lemma after_body_requests start_time w :
  requests (after_body start_time w) =
  (requests w ++ [start_time_str start_time])%list.
Proof.
  unfold after_body. destruct (fetch_at start_time w) as [l|]; simpl; [|reflexivity].
  destruct (after_insert_all_io env l (add_request (start_time_str start_time) w))
    as [_ [Hr _]].
  rewrite Hr. reflexivity.
Qed.

Lemma fill_gaps_loop_exit fuel start_time now w :
  now < start_time ->
  fill_gaps_loop env fuel start_time now w = Return (start_time, now) w.
Proof.
  intros H. apply Z.leb_gt in H.
  destruct fuel; simpl; rewrite H; reflexivity.
Qed.

Lemma fill_gaps_loop_step fuel start_time now w :
  start_time <= now ->
  fill_gaps_loop env (S fuel) start_time now w =
  fill_gaps_loop env fuel (next_start start_time w) (utcnow env (clock_reads w))
    (after_body start_time w).
Proof.
  intros H. apply Z.leb_le in H.
  simpl. rewrite H. unfold bind. rewrite fill_gaps_body_eq. reflexivity.
Qed.

(** What [get_max_timestamp_of_trade_buckets] returns in [w]. *)
Definition max_timestamp_in (w : World) : option Z :=
  if mysql_up env (db_calls w) then sql_max (tradeBin1m w) else None.

Lemma get_max_timestamp_eq w :
  get_max_timestamp_of_trade_buckets env w = Return (max_timestamp_in w) (tick_db w).
Proof.
  unfold get_max_timestamp_of_trade_buckets, max_timestamp_in, execute_select_max.
  run. destruct (mysql_up env (db_calls w)); reflexivity.
Qed.

(** The value of [start_time] when the loop is entered. *)
Definition first_start (horizon : Z) (w : World) : Z :=
  let now := utcnow env (clock_reads w) in
  Z.min (now - horizon)
        (match max_timestamp_in w with Some t => t | None => now end) + 60.

Lemma fill_gaps_eq fuel horizon w :
  fill_gaps env fuel horizon w =
  (fill_gaps_loop env fuel (first_start horizon w) (utcnow env (clock_reads w)) ;;; ret tt)
    (tick_db (tick_clock w)).
Proof.
  unfold fill_gaps, first_start.
  unfold bind at 1. unfold now_utc at 1.
  unfold bind at 1. rewrite get_max_timestamp_eq.
  unfold max_timestamp_in. simpl. reflexivity.
Qed.

End Gaps.

(** ** Concrete environments and states *)

(** 2020-09-13 12:27:00 UTC. *)
Definition t0 : Z := 1600000020.

Definition ack_frame : Frame := mkFrame None None None.

(** Every service answers; each REST page is empty; the clock advances two
    seconds between readings. *)
Definition quiet_env : Env :=
  mkEnv (fun k => t0 + 2 * Z.of_nat k) (fun _ => true) (fun _ _ => Some [])
        (fun _ => true) (fun _ => true) (fun _ => RecvText (Some ack_frame)).

Definition bucket_at (t : Z) : TradeBucket :=
  mkTradeBucket t "XBTUSD" None None None None None None None None None None None.

Definition empty_world : World := mkWorld [] 0 0 [] 0 0 0 [].

(** A store whose latest bucket is ten minutes old. *)
Definition small_gap_world : World :=
  mkWorld [row_of (bucket_at (t0 - 10*60))] 0 0 [] 0 0 0 [].

(** As [quiet_env], but MySQL is unreachable and every REST page holds the
    bucket of 12:18. *)
Definition db_down_env : Env :=
  mkEnv (fun k => t0 + 2 * Z.of_nat k) (fun _ => false)
        (fun _ _ => Some [bucket_at (t0 - 9*60)])
        (fun _ => true) (fun _ => true) (fun _ => RecvText (Some ack_frame)).

(** As [quiet_env], but the first REST request fails. *)
Definition flaky_env : Env :=
  mkEnv (fun k => t0 + 2 * Z.of_nat k) (fun _ => true)
        (fun k _ => match k with O => None | _ => Some [] end)
        (fun _ => true) (fun _ => true) (fun _ => RecvText (Some ack_frame)).

(** ** Claims about the store *)

(** C5. [insert_trade_bucket] never raises.  Inserting a bucket whose
    [(timestamp, symbol)] is already in the table leaves the table as it is,
    so a second insert of [b] after one that reached MySQL changes nothing,
    and the table never holds two rows with the same key. *)
Theorem insert_trade_bucket_idempotent env b w :
  NoDup (map primary_key (tradeBin1m w)) ->
  mysql_up env (db_calls w) = true ->
  exists w1 w2,
    insert_trade_bucket env b w = Return tt w1 /\
    insert_trade_bucket env b w1 = Return tt w2 /\
    tradeBin1m w2 = tradeBin1m w1 /\
    NoDup (map primary_key (tradeBin1m w2)) /\
    (has_key (primary_key (row_of b)) (tradeBin1m w) = true ->
     tradeBin1m w1 = tradeBin1m w).
Proof.
  intros Hnd Hup.
  exists (after_insert env b w), (after_insert env b (after_insert env b w)).
  rewrite !insert_trade_bucket_eq.
  repeat split.
  - apply after_insert_present. apply after_insert_reached. exact Hup.
  - do 2 apply after_insert_NoDup. exact Hnd.
  - apply after_insert_present.
Qed.

Lemma insert_trade_bucket_idempotent_witness :
  exists w1 w2,
    insert_trade_bucket quiet_env (bucket_at t0) small_gap_world = Return tt w1 /\
    insert_trade_bucket quiet_env (bucket_at t0) w1 = Return tt w2 /\
    tradeBin1m w2 = tradeBin1m w1 /\
    List.length (tradeBin1m w2) = 2%nat.
Proof.
  destruct (@insert_trade_bucket_idempotent quiet_env (bucket_at t0) small_gap_world)
    as [w1 [w2 [H1 [H2 [H3 _]]]]].
  - simpl. constructor; [intros [] | constructor].
  - reflexivity.
  - exists w1, w2. repeat split; try assumption.
    rewrite H3. vm_compute in H1. inversion H1. reflexivity.
Defined.

(** ** Claims about fill_gaps *)

Definition clear_table (w : World) : World :=
  mkWorld [] (clock_reads w) (db_calls w) (requests w)
          (ws_connects w) (ws_open_reads w) (ws_recvs w) (live_log w).

(** C10. When the query for the maximum raises,
    [get_max_timestamp_of_trade_buckets] returns [None] after that one
    statement, and [fill_gaps] enters its loop with the [start_time] and [now]
    it would have with an empty table: the maximum is taken to be [now]. *)
Theorem get_max_timestamp_error_is_absent env fuel horizon w :
  mysql_up env (db_calls w) = false ->
  let now := utcnow env (clock_reads w) in
  get_max_timestamp_of_trade_buckets env w = Return None (tick_db w) /\
  fill_gaps env fuel horizon w =
    (fill_gaps_loop env fuel (Z.min (now - horizon) now + 60) now ;;; ret tt)
      (tick_db (tick_clock w)) /\
  first_start env horizon w = first_start env horizon (clear_table w).
Proof.
  intros Hdown now.
  assert (Hmax : max_timestamp_in env w = None)
    by (unfold max_timestamp_in; rewrite Hdown; reflexivity).
  repeat split.
  - rewrite get_max_timestamp_eq, Hmax. reflexivity.
  - rewrite fill_gaps_eq. unfold first_start. rewrite Hmax. reflexivity.
  - unfold first_start, max_timestamp_in. rewrite Hdown. simpl.
    destruct (mysql_up env (db_calls w)); reflexivity.
Qed.

Lemma get_max_timestamp_error_is_absent_witness :
  get_max_timestamp_of_trade_buckets db_down_env small_gap_world =
    Return None (tick_db small_gap_world) /\
  first_start db_down_env default_horizon small_gap_world =
    t0 - default_horizon + 60.
Proof.
  destruct (@get_max_timestamp_error_is_absent db_down_env 0 default_horizon
              small_gap_world eq_refl) as [H1 [_ H3]].
  split; [exact H1 | rewrite H3; reflexivity].
Defined.

(** The state in which a computation has stopped. *)
Definition final_world (A : Type) (r : result A) : World :=
  match r with
  | Return _ w => w
  | Raise _ w => w
  | OutOfFuel w => w
  end.

(** C1, as stated, fails.  The latest bucket is ten minutes old and the
    horizon is three hours: the first window does not start at
    [max(now - h, T) + 60], nine minutes ago, but at [now - h + 60], and two
    requests are issued. *)
Lemma fill_gaps_first_window_not_max :
  let now := utcnow quiet_env 0 in
  let T := now - 10*60 in
  let h := 3*60*60 in
  max_timestamp_in quiet_env small_gap_world = Some T /\
  requests (final_world (fill_gaps quiet_env 5 h small_gap_world)) =
    [start_time_str (now - h + 60); start_time_str (now - h + 60 + 2*60*60)] /\
  start_time_str (now - h + 60) <> start_time_str (Z.max (now - h) T + 60).
Proof.
  repeat split. vm_compute. discriminate.
Qed.

(** C1, amended.  With [T] the maximum read from the store, the loop is
    entered with [start_time = min(now - h, T) + 60], and when that is not
    after [now] the first request is for the window starting there.  When the
    latest bucket is ten minutes old and the horizon is at most ten minutes,
    and the request succeeds before [start_time + 2h], exactly one request is
    issued, for the window starting nine minutes ago, and [fill_gaps]
    returns. *)
Theorem fill_gaps_first_window env fuel horizon w T :
  max_timestamp_in env w = Some T ->
  let now := utcnow env (clock_reads w) in
  let start_time := Z.min (now - horizon) T + 60 in
  let w1 := tick_db (tick_clock w) in
  fill_gaps env fuel horizon w =
    (fill_gaps_loop env fuel start_time now ;;; ret tt) w1 /\
  (start_time <= now ->
   fill_gaps env (S fuel) horizon w =
     (fill_gaps_loop env fuel (next_start env start_time w1)
        (utcnow env (S (clock_reads w))) ;;; ret tt) (after_body env start_time w1) /\
   requests (after_body env start_time w1) =
     (requests w ++ [start_time_str start_time])%list) /\
  (T = now - 10*60 -> horizon <= 10*60 ->
   fetch_at env (now - 9*60) w <> None ->
   utcnow env (S (clock_reads w)) < now - 9*60 + 2*60*60 ->
   fill_gaps env (S fuel) horizon w = Return tt (after_body env (now - 9*60) w1) /\
   requests (after_body env (now - 9*60) w1) =
     (requests w ++ [start_time_str (now - 9*60)])%list).
Proof.
  intros Hmax now start_time w1.
  assert (Hfirst : first_start env horizon w = start_time)
    by (unfold first_start; rewrite Hmax; reflexivity).
  assert (Hstep : start_time <= now ->
    fill_gaps env (S fuel) horizon w =
     (fill_gaps_loop env fuel (next_start env start_time w1)
        (utcnow env (S (clock_reads w))) ;;; ret tt) (after_body env start_time w1) /\
    requests (after_body env start_time w1) =
     (requests w ++ [start_time_str start_time])%list).
  { intros Hle. split.
    - rewrite fill_gaps_eq, Hfirst. fold now; fold w1.
      unfold bind at 1. rewrite fill_gaps_loop_step by exact Hle.
      reflexivity.
    - rewrite after_body_requests. reflexivity. }
  split; [|split].
  - rewrite fill_gaps_eq, Hfirst. reflexivity.
  - exact Hstep.
  - intros HT Hh Hfetch Hclock.
    assert (Hs : start_time = now - 9*60) by (unfold start_time; lia).
    rewrite Hs in Hstep. destruct Hstep as [Hrun Hreq]; [lia|].
    split; [|exact Hreq].
    rewrite Hrun. unfold bind.
    assert (Hnext : next_start env (now - 9*60) w1 = now - 9*60 + 2*60*60).
    { unfold next_start. change (fetch_at env (now - 9*60) w1)
        with (fetch_at env (now - 9*60) w).
      destruct (fetch_at env (now - 9*60) w); [reflexivity | congruence]. }
    rewrite Hnext, fill_gaps_loop_exit by lia. reflexivity.
Qed.

Lemma fill_gaps_first_window_witness :
  exists w',
    fill_gaps quiet_env 1 (10*60) small_gap_world = Return tt w' /\
    requests w' = [t0 - 9*60].
Proof.
  destruct (@fill_gaps_first_window quiet_env 0 (10*60) small_gap_world (t0 - 10*60)
              eq_refl) as [_ [_ H]].
  destruct H as [Hrun Hreq].
  - reflexivity.
  - vm_compute. discriminate.
  - vm_compute. discriminate.
  - vm_compute. reflexivity.
  - eexists. split; [exact Hrun | exact Hreq].
Defined.

(** C2, as stated, fails.  On an empty store and with the default horizon
    of 21 days, [fill_gaps] issues 253 requests, the first for the window
    starting 21 days ago. *)
Lemma fill_gaps_empty_store_backfills :
  max_timestamp_in quiet_env empty_world = None /\
  exists w',
    fill_gaps quiet_env 300 default_horizon empty_world = Return tt w' /\
    List.length (requests w') = 253%nat /\
    hd_error (requests w') = Some (start_time_str (t0 - default_horizon + 60)).
Proof.
  split; [reflexivity|].
  eexists. split; [vm_compute; reflexivity|].
  split; vm_compute; reflexivity.
Qed.

(** C2, amended.  When the store is empty the maximum is taken to be [now]
    and the loop is entered with [start_time = min(now - h, now) + 60].  With
    a horizon under a minute that is after [now]: no request is issued and
    [fill_gaps] returns at once.  With a horizon of a minute or more the
    first request is for the window starting at [now - h + 60]. *)
Theorem fill_gaps_empty_store env fuel horizon w :
  tradeBin1m w = [] ->
  let now := utcnow env (clock_reads w) in
  let w1 := tick_db (tick_clock w) in
  get_max_timestamp_of_trade_buckets env w = Return None (tick_db w) /\
  first_start env horizon w = Z.min (now - horizon) now + 60 /\
  (horizon < 60 -> fill_gaps env fuel horizon w = Return tt w1) /\
  (60 <= horizon ->
   fill_gaps env (S fuel) horizon w =
     (fill_gaps_loop env fuel (next_start env (now - horizon + 60) w1)
        (utcnow env (S (clock_reads w))) ;;; ret tt)
       (after_body env (now - horizon + 60) w1) /\
   requests (after_body env (now - horizon + 60) w1) =
     (requests w ++ [start_time_str (now - horizon + 60)])%list).
Proof.
  intros Hempty now w1.
  assert (Hmax : max_timestamp_in env w = None).
  { unfold max_timestamp_in. rewrite Hempty.
    destruct (mysql_up env (db_calls w)); reflexivity. }
  assert (Hfirst : first_start env horizon w = Z.min (now - horizon) now + 60)
    by (unfold first_start; rewrite Hmax; reflexivity).
  split; [|split; [|split]].
  - rewrite get_max_timestamp_eq, Hmax. reflexivity.
  - exact Hfirst.
  - intros Hh. rewrite fill_gaps_eq, Hfirst. fold now; fold w1.
    unfold bind. rewrite fill_gaps_loop_exit by lia. reflexivity.
  - intros Hh. split.
    + rewrite fill_gaps_eq, Hfirst. fold now; fold w1.
      replace (Z.min (now - horizon) now + 60) with (now - horizon + 60) by lia.
      unfold bind at 1. rewrite fill_gaps_loop_step by lia. reflexivity.
    + rewrite after_body_requests. reflexivity.
Qed.

Lemma fill_gaps_empty_store_witness :
  fill_gaps quiet_env 0 59 empty_world = Return tt (tick_db (tick_clock empty_world)) /\
  requests (after_body quiet_env (t0 - default_horizon + 60)
              (tick_db (tick_clock empty_world))) =
    [start_time_str (t0 - default_horizon + 60)].
Proof.
  destruct (@fill_gaps_empty_store quiet_env 0 59 empty_world eq_refl)
    as [_ [_ [H _]]].
  destruct (@fill_gaps_empty_store quiet_env 0 default_horizon empty_world eq_refl)
    as [_ [_ [_ H']]].
  split.
  - apply H. reflexivity.
  - apply H'. vm_compute. discriminate.
Defined.

(** C4, as stated, fails.  The page is fetched, the insert of its bucket
    fails (MySQL is unreachable), and [start_time] is advanced all the same. *)
Lemma fill_gaps_body_advances_on_failed_insert :
  let start_time := t0 - 9*60 in
  let w1 := add_request (start_time_str start_time) empty_world in
  fetch_at db_down_env start_time empty_world = Some [bucket_at start_time] /\
  execute_insert db_down_env (row_of (bucket_at start_time)) w1 =
    Raise OperationalError (tick_db w1) /\
  exists w',
    fill_gaps_body db_down_env start_time empty_world =
      Return (start_time + 2*60*60, t0) w' /\
    tradeBin1m w' = [] /\
    requests w' = [start_time].
Proof.
  repeat split. eexists. repeat split.
Qed.

(** C4, amended.  An iteration always completes.  If the fetch fails,
    [start_time] is not advanced, and the next iteration, run when
    [start_time] is not after the re-sampled [now], requests the same window.
    If the fetch succeeds, [start_time] is advanced by two hours whatever
    becomes of the inserts, whose errors [insert_trade_bucket] swallows. *)
Theorem fill_gaps_body_advance env fuel start_time w :
  let now' := utcnow env (clock_reads w) in
  let w' := after_body env start_time w in
  fill_gaps_body env start_time w = Return (next_start env start_time w, now') w' /\
  (fetch_at env start_time w = None ->
   next_start env start_time w = start_time /\
   (start_time <= now' ->
    fill_gaps_loop env (S fuel) start_time now' w' =
      fill_gaps_loop env fuel (next_start env start_time w')
        (utcnow env (clock_reads w')) (after_body env start_time w') /\
    requests (after_body env start_time w') =
      (requests w ++ [start_time_str start_time; start_time_str start_time])%list)) /\
  (fetch_at env start_time w <> None ->
   next_start env start_time w = start_time + 2*60*60) /\
  (forall b w0, exists w0', insert_trade_bucket env b w0 = Return tt w0').
Proof.
  intros now' w'. split; [|split; [|split]].
  - apply fill_gaps_body_eq.
  - intros Hfail. split.
    + unfold next_start. rewrite Hfail. reflexivity.
    + intros Hle. split.
      * apply fill_gaps_loop_step. exact Hle.
      * unfold w'. rewrite !after_body_requests, <- app_assoc. reflexivity.
  - intros Hok. unfold next_start.
    destruct (fetch_at env start_time w); [reflexivity | congruence].
  - intros b w0. eexists. apply insert_trade_bucket_eq.
Qed.

Lemma fill_gaps_body_advance_witness :
  let start_time := t0 - 9*60 in
  next_start flaky_env start_time empty_world = start_time /\
  next_start db_down_env start_time empty_world = start_time + 2*60*60.
Proof.
  intros start_time.
  destruct (@fill_gaps_body_advance flaky_env 0 start_time empty_world)
    as [_ [Hfail _]].
  destruct (@fill_gaps_body_advance db_down_env 0 start_time empty_world)
    as [_ [_ [Hok _]]].
  split.
  - apply Hfail. reflexivity.
  - apply Hok. vm_compute. discriminate.
Defined.

(** C6.  An iteration whose request fails leaves [start_time] as it was;
    when the clock has not gone back, the loop goes round again and requests
    the same window; and when that request succeeds, [start_time] moves on by
    one window only. *)
Theorem fill_gaps_retries_failed_window env fuel start_time now w :
  start_time <= now ->
  now <= utcnow env (clock_reads w) ->
  fetch_at env start_time w = None ->
  let w1 := after_body env start_time w in
  let w2 := after_body env start_time w1 in
  fill_gaps_body env start_time w =
    Return (start_time, utcnow env (clock_reads w)) w1 /\
  fill_gaps_loop env (S (S fuel)) start_time now w =
    fill_gaps_loop env fuel (next_start env start_time w1)
      (utcnow env (S (clock_reads w))) w2 /\
  requests w2 =
    (requests w ++ [start_time_str start_time; start_time_str start_time])%list /\
  (fetch_at env start_time w1 <> None ->
   next_start env start_time w1 = start_time + 2*60*60).
Proof.
  intros Hle Hmono Hfail w1 w2.
  assert (Hnext : next_start env start_time w = start_time)
    by (unfold next_start; rewrite Hfail; reflexivity).
  split; [|split; [|split]].
  - rewrite fill_gaps_body_eq, Hnext. reflexivity.
  - rewrite fill_gaps_loop_step by exact Hle. rewrite Hnext.
    rewrite fill_gaps_loop_step by lia.
    fold w1. unfold w1 at 2. rewrite after_body_clock. reflexivity.
  - unfold w2, w1. rewrite !after_body_requests, <- app_assoc. reflexivity.
  - intros Hok. unfold next_start.
    destruct (fetch_at env start_time w1); [reflexivity | congruence].
Qed.

Lemma fill_gaps_retries_failed_window_witness :
  let start_time := t0 - 9*60 in
  exists w2,
    fill_gaps_loop flaky_env 2 start_time t0 empty_world =
      Return (start_time + 2*60*60, t0 + 2) w2 /\
    requests w2 = [start_time; start_time].
Proof.
  intros start_time.
  destruct (@fill_gaps_retries_failed_window flaky_env 0 start_time t0 empty_world)
    as [_ [Hrun [Hreq Hnext]]].
  - vm_compute. discriminate.
  - vm_compute. discriminate.
  - reflexivity.
  - eexists. split; [|exact Hreq].
    rewrite Hrun, Hnext by (vm_compute; discriminate).
    apply fill_gaps_loop_exit. vm_compute. reflexivity.
Defined.

(** The loop ends: when every request succeeds and the clock gains less than
    two hours per iteration, [start_time] gains on [now] in each iteration.
    [now] is the reading [c] of the clock; the loop returns after [k]
    iterations, [k] being the first index at which [start_time] is after the
    re-sampled [now]. *)
Lemma fill_gaps_loop_terminates env :
  (forall k s, Trade_getBucketed env k s <> None) ->
  (forall k, utcnow env (S k) - utcnow env k < 2*60*60) ->
  forall n start_time c w,
    clock_reads w = S c ->
    utcnow env c - start_time < Z.of_nat n ->
    exists k,
      (k <= n)%nat /\
      utcnow env (c + k) < start_time + 2*60*60 * Z.of_nat k /\
      (forall j, (j < k)%nat ->
         start_time + 2*60*60 * Z.of_nat j <= utcnow env (c + j)) /\
      forall fuel, (k <= fuel)%nat ->
        exists w',
          fill_gaps_loop env fuel start_time (utcnow env c) w =
            Return (start_time + 2*60*60 * Z.of_nat k, utcnow env (c + k)) w' /\
          List.length (requests w') = (List.length (requests w) + k)%nat.
Proof.
  intros Hfetch Hclock n.
  induction n as [|n IH]; intros start_time c w Hc Hgap.
  - exists 0%nat. rewrite Nat.add_0_r. simpl Z.of_nat. rewrite Z.mul_0_r, Z.add_0_r.
    repeat split; [lia | lia | lia |].
    intros fuel _. exists w. rewrite fill_gaps_loop_exit by lia.
    split; [reflexivity | lia].
  - destruct (Z_lt_le_dec (utcnow env c) start_time) as [Hlt | Hle].
    + exists 0%nat. rewrite Nat.add_0_r. simpl Z.of_nat. rewrite Z.mul_0_r, Z.add_0_r.
      repeat split; [lia | lia | lia |].
      intros fuel _. exists w. rewrite fill_gaps_loop_exit by lia.
      split; [reflexivity | lia].
    + assert (Hnext : next_start env start_time w = start_time + 2*60*60).
      { unfold next_start, fetch_at.
        destruct (Trade_getBucketed env _ _) eqn:E; [reflexivity|].
        exfalso. eapply Hfetch. exact E. }
      destruct (IH (start_time + 2*60*60) (S c) (after_body env start_time w))
        as [k [Hk [Hexit [Hbefore Hrun]]]].
      * rewrite after_body_clock, Hc. reflexivity.
      * specialize (Hclock c). lia.
      * exists (S k).
        replace (c + S k)%nat with (S c + k)%nat by lia.
        replace (start_time + 2*60*60 * Z.of_nat (S k))
          with (start_time + 2*60*60 + 2*60*60 * Z.of_nat k) by lia.
        repeat split; [lia | exact Hexit | |].
        -- intros j Hj. destruct j as [|j].
           ++ rewrite Nat.add_0_r. simpl Z.of_nat. lia.
           ++ replace (c + S j)%nat with (S c + j)%nat by lia.
              specialize (Hbefore j ltac:(lia)). lia.
        -- intros fuel Hfuel. destruct fuel as [|fuel]; [lia|].
           rewrite fill_gaps_loop_step by exact Hle.
           rewrite Hnext, Hc.
           destruct (Hrun fuel ltac:(lia)) as [w' [Hret Hlen]].
           exists w'. split; [exact Hret|].
           rewrite Hlen, after_body_requests, length_app. simpl. lia.
Qed.

(** C9.  When every request succeeds and the clock gains less than two
    hours between two samples, [fill_gaps] returns, given fuel for its [k]
    iterations: [k] is the first index at which [start_time], advanced by two
    hours per iteration, is after the [now] sampled at the end of that
    iteration, and [k] requests have been issued. *)
Theorem fill_gaps_terminates env horizon w :
  (forall k s, Trade_getBucketed env k s <> None) ->
  (forall k, utcnow env (S k) - utcnow env k < 2*60*60) ->
  let start_time := first_start env horizon w in
  let c := clock_reads w in
  exists k,
    utcnow env (c + k) < start_time + 2*60*60 * Z.of_nat k /\
    (forall j, (j < k)%nat ->
       start_time + 2*60*60 * Z.of_nat j <= utcnow env (c + j)) /\
    forall fuel, (k <= fuel)%nat ->
      exists w',
        fill_gaps env fuel horizon w = Return tt w' /\
        List.length (requests w') = (List.length (requests w) + k)%nat.
Proof.
  intros Hfetch Hclock start_time c.
  destruct (@fill_gaps_loop_terminates env Hfetch Hclock
              (Z.to_nat (utcnow env c - start_time + 1)) start_time c
              (tick_db (tick_clock w)) eq_refl)
    as [k [_ [Hexit [Hbefore Hrun]]]]; [lia|].
  exists k. repeat split; [exact Hexit | exact Hbefore |].
  intros fuel Hfuel. destruct (Hrun fuel Hfuel) as [w' [Hret Hlen]].
  exists w'. rewrite fill_gaps_eq. unfold bind.
  fold c; fold start_time. rewrite Hret. split; [reflexivity | exact Hlen].
Qed.

Lemma fill_gaps_terminates_witness :
  exists k,
    (forall fuel, (k <= fuel)%nat ->
       exists w',
         fill_gaps quiet_env fuel default_horizon small_gap_world = Return tt w' /\
         List.length (requests w') = k) /\
    t0 + 2 * Z.of_nat k < t0 - default_horizon + 60 + 2*60*60 * Z.of_nat k.
Proof.
  destruct (@fill_gaps_terminates quiet_env default_horizon small_gap_world)
    as [k [Hexit [_ Hrun]]].
  - intros k s. discriminate.
  - intros k.
    change (t0 + 2 * Z.of_nat (S k) - (t0 + 2 * Z.of_nat k) < 2*60*60). lia.
  - exists k. split.
    + intros fuel Hfuel. destruct (Hrun fuel Hfuel) as [w' [Hret Hlen]].
      exists w'. split; [exact Hret | exact Hlen].
    + exact Hexit.
Defined.

(** [fill_gaps] swallows every error: it returns or is still running. *)
Lemma fill_gaps_loop_no_raise env fuel : forall start_time now w e w',
  fill_gaps_loop env fuel start_time now w <> Raise e w'.
Proof.
  induction fuel as [|fuel IH]; intros start_time now w e w'.
  - simpl. destruct (start_time <=? now); discriminate.
  - destruct (Z_lt_le_dec now start_time) as [Hlt | Hle].
    + rewrite fill_gaps_loop_exit by exact Hlt. discriminate.
    + rewrite fill_gaps_loop_step by exact Hle. apply IH.
Qed.

Lemma fill_gaps_no_raise env fuel horizon w e w' :
  fill_gaps env fuel horizon w <> Raise e w'.
Proof.
  rewrite fill_gaps_eq. unfold bind.
  destruct (fill_gaps_loop env fuel _ _ _) as [a w1 | e1 w1 | w1] eqn:E.
  - discriminate.
  - exfalso. eapply fill_gaps_loop_no_raise. exact E.
  - discriminate.
Qed.

(** ** Claims about capture_data *)

Section Capture.

Variable env : Env.

(** The world once [websocket.recv()] has been called. *)
Definition after_recv (w : World) : World :=
  with_live w (ws_connects w) (ws_open_reads w) (S (ws_recvs w)) (live_log w).

Lemma receive_error_eq fuel l w :
  ws_recv env (ws_recvs w) = RecvRaises ->
  receive env fuel l w = on_recv_error env fuel l (after_recv w).
Proof.
  intros H. unfold receive, bind at 1, try_except, bind at 1, websocket_recv.
  rewrite H. unfold bind at 1, ret, after_recv.
  destruct (on_recv_error env fuel l _); reflexivity.
Qed.

Lemma receive_text_eq fuel l w text :
  ws_recv env (ws_recvs w) = RecvText text ->
  receive env fuel l w = on_frame env l text (after_recv w).
Proof.
  intros H. unfold receive, bind at 1, try_except, bind at 1, websocket_recv.
  rewrite H. reflexivity.
Qed.

(** The marker, and the world, after
    [if not when_outage_occurred: when_outage_occurred = <now>]. *)
Definition outage_start (l : Locals) (w : World) : Z :=
  match when_outage_occurred l with
  | None => utcnow env (clock_reads w)
  | Some t => if t =? 0 then utcnow env (clock_reads w) else t
  end.

Definition after_mark (l : Locals) (w : World) : World :=
  match when_outage_occurred l with
  | None => tick_clock w
  | Some t => if t =? 0 then tick_clock w else w
  end.

Lemma on_recv_error_eq fuel l w :
  on_recv_error env fuel l w =
  (fill_gaps env fuel
     (utcnow env (clock_reads (after_mark l w)) - outage_start l w + 5*60) ;;;
   ret (mkLocals (rcvd_tradeBin1m_partial l) (Some (outage_start l w))))
    (tick_clock (after_mark l w)).
Proof.
  unfold on_recv_error, outage_start, after_mark, mark_outage.
  destruct (when_outage_occurred l) as [t|]; [destruct (t =? 0)|]; reflexivity.
Qed.

End Capture.

(** As [quiet_env], but the first [recv] fails. *)
Definition outage_env : Env :=
  mkEnv (fun k => t0 + 2 * Z.of_nat k) (fun _ => true) (fun _ _ => Some [])
        (fun _ => true) (fun _ => true)
        (fun k => match k with O => RecvRaises | _ => RecvText (Some ack_frame) end).

(** C7.  When [recv] raises: if the outage marker is clear it is set to the
    time of this failure, and if it is set it stays; [fill_gaps] is then
    called with the horizon [(now - outage start) + 5 minutes], [now] being
    sampled after the marker. *)
Theorem recv_error_sets_marker_once env fuel l w :
  ws_recv env (ws_recvs w) = RecvRaises ->
  let rcvd := rcvd_tradeBin1m_partial l in
  let w0 := after_recv w in
  (when_outage_occurred l = None ->
   let outage := utcnow env (clock_reads w) in
   let now := utcnow env (S (clock_reads w)) in
   receive env fuel l w =
     (fill_gaps env fuel ((now - outage) + 5*60) ;;; ret (mkLocals rcvd (Some outage)))
       (tick_clock (tick_clock w0))) /\
  (forall outage, when_outage_occurred l = Some outage -> outage <> 0 ->
   let now := utcnow env (clock_reads w) in
   receive env fuel l w =
     (fill_gaps env fuel ((now - outage) + 5*60) ;;; ret (mkLocals rcvd (Some outage)))
       (tick_clock w0)).
Proof.
  intros Hrecv rcvd w0. split.
  - intros Hclear. rewrite receive_error_eq by exact Hrecv.
    unfold on_recv_error. rewrite Hclear. reflexivity.
  - intros outage Hset Hnz. rewrite receive_error_eq by exact Hrecv.
    unfold on_recv_error. rewrite Hset. unfold mark_outage.
    apply Z.eqb_neq in Hnz. rewrite Hnz. reflexivity.
Qed.

Lemma recv_error_sets_marker_once_witness :
  receive outage_env 5 (mkLocals true None) empty_world =
    (fill_gaps outage_env 5 (2 + 5*60) ;;; ret (mkLocals true (Some t0)))
      (tick_clock (tick_clock (after_recv empty_world))) /\
  receive outage_env 5 (mkLocals true (Some (t0 - 3*60))) empty_world =
    (fill_gaps outage_env 5 (3*60 + 5*60) ;;;
     ret (mkLocals true (Some (t0 - 3*60))))
      (tick_clock (after_recv empty_world)).
Proof.
  split.
  - destruct (@recv_error_sets_marker_once outage_env 5 (mkLocals true None)
                empty_world eq_refl) as [H _].
    apply H. reflexivity.
  - destruct (@recv_error_sets_marker_once outage_env 5
                (mkLocals true (Some (t0 - 3*60))) empty_world eq_refl) as [_ H].
    apply (H (t0 - 3*60) eq_refl). vm_compute. discriminate.
Defined.

(** The loop of [capture_data] has no exit of its own. *)
Lemma capture_loop_no_return env n fuel : forall l w a w',
  capture_loop env n fuel l w <> Return a w'.
Proof.
  induction n as [|n IH]; intros l w a w'; simpl.
  - discriminate.
  - unfold bind. destruct (capture_body env fuel l w) as [l1 w1 | e w1 | w1].
    + apply IH.
    + discriminate.
    + discriminate.
Qed.

(** Two connections: the second is refused.  The first [recv] fails. *)
Definition refused_env : Env :=
  mkEnv (fun k => t0 + 2 * Z.of_nat k) (fun _ => true) (fun _ _ => Some [])
        (fun k => match k with O => true | _ => false end)
        (fun k => match k with O | 1 => true | _ => false end)%nat
        (fun _ => RecvRaises).

(** C8 fails on the code.  The first [recv] fails and is handled; the
    connection is then found closed, the attempt to open a new one fails, and
    [capture_data] ends with that error, after two attempts to connect and
    one gap-filling pass for the outage: [websockets.connect] in the loop is
    not covered by the [try] that covers [recv]. *)
Lemma capture_data_ends_when_reconnect_fails :
  exists w',
    capture_data refused_env 10 300 empty_world = Raise ConnectError w' /\
    ws_connects w' = 2%nat /\ ws_recvs w' = 1%nat /\
    List.length (requests w') = 254%nat.
Proof.
  eexists. split; [vm_compute; reflexivity|].
  repeat split.
Qed.

(** What does hold of the loop.  [capture_data] never returns of its own
    accord.  A failure of [recv] never ends it: the handler runs [fill_gaps]
    and, once that returns, the iteration is over and the loop goes on, with
    the outage marker set.  A failure to open a new connection is not
    handled: it ends the iteration, the loop and [capture_data] with that
    error. *)
Theorem capture_data_ends_only_by_error env n fuel l w :
  (forall a w', capture_data env n fuel w <> Return a w') /\
  (forall a w', capture_loop env n fuel l w <> Return a w') /\
  (ws_recv env (ws_recvs w) = RecvRaises ->
   (forall e w', receive env fuel l w <> Raise e w') /\
   (forall l' w', receive env fuel l w = Return l' w' ->
    rcvd_tradeBin1m_partial l' = rcvd_tradeBin1m_partial l /\
    when_outage_occurred l' <> None)) /\
  (ws_open env (ws_open_reads w) = false ->
   ws_connect env (ws_connects w) = false ->
   exists w',
     capture_body env fuel l w = Raise ConnectError w' /\
     capture_loop env (S n) fuel l w = Raise ConnectError w').
Proof.
  split; [|split; [|split]].
  - intros a w'. unfold capture_data, bind.
    destruct (fill_gaps env fuel default_horizon w); try discriminate.
    destruct (websockets_connect env w0); try discriminate.
    apply capture_loop_no_return.
  - apply capture_loop_no_return.
  - intros Hrecv. rewrite receive_error_eq, on_recv_error_eq by exact Hrecv.
    unfold bind.
    destruct (fill_gaps env fuel _ _) as [[] w2 | e2 w2 | w2] eqn:Hfill.
    + split; [discriminate|]. unfold ret. intros l' w' H. inversion H.
      simpl. split; [reflexivity | discriminate].
    + exfalso. eapply fill_gaps_no_raise. exact Hfill.
    + split; discriminate.
  - intros Hclosed Hrefused.
    assert (Hbody : capture_body env fuel l w =
      Raise ConnectError
        (with_live w (S (ws_connects w)) (S (ws_open_reads w)) (ws_recvs w) (live_log w))).
    { unfold capture_body, reconnect_if_closed, bind, websocket_open, websockets_connect.
      rewrite Hclosed. simpl. rewrite Hrefused. reflexivity. }
    eexists. split; [exact Hbody|].
    simpl. unfold bind. rewrite Hbody. reflexivity.
Qed.

Lemma capture_data_ends_only_by_error_witness :
  (forall e w', receive outage_env 5 (mkLocals false None) empty_world <> Raise e w') /\
  exists w',
    capture_loop refused_env 1 5 (mkLocals false None)
      (with_live empty_world 1 2 1 []) = Raise ConnectError w'.
Proof.
  split.
  - destruct (@capture_data_ends_only_by_error outage_env 0 5 (mkLocals false None)
                empty_world) as [_ [_ [H _]]].
    apply H. reflexivity.
  - destruct (@capture_data_ends_only_by_error refused_env 0 5 (mkLocals false None)
                (with_live empty_world 1 2 1 [])) as [_ [_ [_ H]]].
    destruct H as [w' [_ H]]; [reflexivity | reflexivity |].
    exists w'. exact H.
Defined.

(** Snapshot gating, as a property of the history of the live path: every
    insert is preceded by a partial observed since the last connection was
    opened.  [seen] tells whether a partial has been seen on the current
    connection. *)
Fixpoint gated (seen : bool) (log : list LiveEvent) : bool :=
  match log with
  | [] => true
  | EvConnected :: log' => gated false log'
  | EvPartial :: log' => gated true log'
  | EvInsert _ :: log' => seen && gated seen log'
  end.

Definition partial_frame : Frame :=
  mkFrame (Some "tradeBin1m"%string) (Some "partial"%string) (Some []).

Definition live_bucket_at (t : Z) : LiveBucket :=
  mkLiveBucket (Some (Some t)) (Some "XBTUSD"%string)
    None None None None None None None None None None None.

Definition insert_frame (t : Z) : Frame :=
  mkFrame (Some "tradeBin1m"%string) (Some "insert"%string) (Some [live_bucket_at t]).

(** The first connection delivers its partial and then breaks; the second
    one, opened in the third iteration, delivers an insert before any
    partial. *)
Definition reconnect_env : Env :=
  mkEnv (fun k => t0 + 2 * Z.of_nat k) (fun _ => true) (fun _ _ => Some [])
        (fun _ => true)
        (fun k => match k with 4 => false | _ => true end)%nat
        (fun k => match k with
                  | 0 => RecvText (Some partial_frame)
                  | 1 => RecvRaises
                  | _ => RecvText (Some (insert_frame (t0 + 60)))
                  end)%nat.

(** C3 fails on the code: [rcvd_tradeBin1m_partial] is set by the partial of
    the first connection and never reset, so the insert frame that arrives on
    the second connection before any partial is written to the table. *)
Lemma insert_before_partial_after_reconnect :
  let w := final_world (capture_data reconnect_env 3 300 empty_world) in
  live_log w =
    [EvConnected; EvPartial; EvConnected; EvInsert (bucket_at (t0 + 60))] /\
  gated false (live_log w) = false /\
  tradeBin1m w = [row_of (bucket_at (t0 + 60))].
Proof.
  vm_compute. repeat split.
Qed.

(** The part of C3 that holds: while no partial has been seen since
    [capture_data] started, no frame changes the table, and the partial itself
    is not inserted. *)
Lemma on_frame_before_partial env l text w :
  rcvd_tradeBin1m_partial l = false ->
  tradeBin1m (final_world (on_frame env l text w)) = tradeBin1m w.
Proof.
  intros Hl. unfold on_frame, json_loads, bind, ret, raise, log_live.
  destruct text as [data|]; [|reflexivity].
  destruct (f_table data) as [table|]; [|reflexivity].
  destruct (f_action data) as [action|]; [|reflexivity].
  destruct (_ && _); [reflexivity|].
  rewrite Hl. reflexivity.
Qed.

(** * Further properties of the program *)

(** ** What every operation preserves *)

(** How the world may change: rows are only appended to the table, the
    primary key stays a key, and requests are only appended to the history. *)
Definition evolves (w w' : World) : Prop :=
  (exists rows, tradeBin1m w' = (tradeBin1m w ++ rows)%list) /\
  (NoDup (map primary_key (tradeBin1m w)) ->
   NoDup (map primary_key (tradeBin1m w'))) /\
  (exists reqs, requests w' = (requests w ++ reqs)%list).

Lemma evolves_refl w : evolves w w.
Proof.
  repeat split; [exists [] | auto | exists []]; rewrite app_nil_r; reflexivity.
Qed.

Lemma evolves_trans w1 w2 w3 : evolves w1 w2 -> evolves w2 w3 -> evolves w1 w3.
Proof.
  intros [[r1 H1] [N1 [q1 Q1]]] [[r2 H2] [N2 [q2 Q2]]].
  repeat split.
  - exists (r1 ++ r2)%list. rewrite H2, H1, app_assoc. reflexivity.
  - auto.
  - exists (q1 ++ q2)%list. rewrite Q2, Q1, app_assoc. reflexivity.
Qed.

(** A world that differs in neither the table nor the requests. *)
Lemma evolves_same w w' :
  tradeBin1m w' = tradeBin1m w -> requests w' = requests w -> evolves w w'.
Proof.
  intros Ht Hr. unfold evolves. rewrite Ht, Hr.
  repeat split; [exists [] | auto | exists []]; rewrite app_nil_r; reflexivity.
Qed.

(** A computation keeps the store when the state it stops in, however it
    stops, has evolved from the one it started in. *)
Definition keeps (A : Type) (m : M A) : Prop :=
  forall w, evolves w (final_world (m w)).

Lemma keeps_ret A (a : A) : keeps (ret a).
Proof. intros w. apply evolves_refl. Qed.

Lemma keeps_raise A e : keeps (@raise A e).
Proof. intros w. apply evolves_refl. Qed.

Lemma keeps_bind A B (m : M A) (k : A -> M B) :
  keeps m -> (forall a, keeps (k a)) -> keeps (bind m k).
Proof.
  intros Hm Hk w. unfold bind. specialize (Hm w).
  destruct (m w) as [a w1 | e w1 | w1]; simpl in Hm.
  - eapply evolves_trans; [exact Hm | apply Hk].
  - exact Hm.
  - exact Hm.
Qed.

Lemma keeps_try_except A (m : M A) (h : exn -> M A) :
  keeps m -> (forall e, keeps (h e)) -> keeps (try_except m h).
Proof.
  intros Hm Hh w. unfold try_except. specialize (Hm w).
  destruct (m w) as [a w1 | e w1 | w1]; simpl in Hm.
  - exact Hm.
  - eapply evolves_trans; [exact Hm | apply Hh].
  - exact Hm.
Qed.

Section Keeps.

Variable env : Env.

Lemma keeps_now_utc : keeps (now_utc env).
Proof. intros w. apply evolves_same; reflexivity. Qed.

Lemma keeps_execute_insert r : keeps (execute_insert env r).
Proof.
  intros w. unfold execute_insert.
  destruct (mysql_up env (db_calls w)); [|apply evolves_same; reflexivity].
  destruct (has_key (primary_key r) (tradeBin1m w)) eqn:E;
    [apply evolves_same; reflexivity|].
  unfold evolves, final_world, add_row, tick_db; cbn [tradeBin1m requests].
  repeat split.
  - exists [r]. reflexivity.
  - intros Hnd. rewrite map_app. simpl. apply NoDup_app.
    + exact Hnd.
    + constructor; [intros [] | constructor].
    + intros k Hk [<- | []]. apply has_key_In in Hk. congruence.
  - exists []. rewrite app_nil_r. reflexivity.
Qed.

Lemma keeps_execute_select_max : keeps (execute_select_max env).
Proof.
  intros w. unfold execute_select_max.
  destruct (mysql_up env (db_calls w)); apply evolves_same; reflexivity.
Qed.

Lemma keeps_getBucketed s : keeps (getBucketed env s).
Proof.
  intros w. unfold getBucketed.
  destruct (Trade_getBucketed env _ s); simpl;
    (repeat split; [exists []; rewrite app_nil_r; reflexivity | auto | exists [s]; reflexivity]).
Qed.

Lemma keeps_websockets_connect : keeps (websockets_connect env).
Proof.
  intros w. unfold websockets_connect.
  destruct (ws_connect env (ws_connects w)); apply evolves_same; reflexivity.
Qed.

Lemma keeps_websocket_open : keeps (websocket_open env).
Proof. intros w. apply evolves_same; reflexivity. Qed.

Lemma keeps_websocket_recv : keeps (websocket_recv env).
Proof.
  intros w. unfold websocket_recv.
  destruct (ws_recv env (ws_recvs w)); apply evolves_same; reflexivity.
Qed.

Lemma keeps_log_live ev : keeps (log_live ev).
Proof. intros w. apply evolves_same; reflexivity. Qed.

Lemma keeps_json_loads text : keeps (json_loads text).
Proof. destruct text; [apply keeps_ret | apply keeps_raise]. Qed.

Lemma keeps_iso8601_parse_date text : keeps (iso8601_parse_date text).
Proof. destruct text; [apply keeps_ret | apply keeps_raise]. Qed.

Lemma keeps_insert_trade_bucket b : keeps (insert_trade_bucket env b).
Proof.
  apply keeps_try_except; [apply keeps_execute_insert | intros e; apply keeps_ret].
Qed.

Lemma keeps_insert_all l : keeps (insert_all env l).
Proof.
  induction l as [|b l IH]; simpl.
  - apply keeps_ret.
  - apply keeps_bind; [apply keeps_insert_trade_bucket | intros _; exact IH].
Qed.

Lemma keeps_get_max_timestamp : keeps (get_max_timestamp_of_trade_buckets env).
Proof.
  unfold get_max_timestamp_of_trade_buckets.
  apply keeps_bind; [|intros a; apply keeps_ret].
  apply keeps_try_except; [|intros e; apply keeps_ret].
  apply keeps_bind; [apply keeps_execute_select_max | intros a; apply keeps_ret].
Qed.

Lemma keeps_fill_gaps_body start_time : keeps (fill_gaps_body env start_time).
Proof.
  unfold fill_gaps_body.
  apply keeps_bind.
  - apply keeps_try_except; [|intros e; apply keeps_ret].
    apply keeps_bind; [apply keeps_getBucketed | intros a; apply keeps_ret].
  - intros [l|]; (apply keeps_bind;
      [|intros s; apply keeps_bind; [apply keeps_now_utc | intros a; apply keeps_ret]]).
    + apply keeps_bind; [apply keeps_insert_all | intros _; apply keeps_ret].
    + apply keeps_ret.
Qed.

Lemma keeps_fill_gaps_loop fuel : forall start_time now,
  keeps (fill_gaps_loop env fuel start_time now).
Proof.
  induction fuel as [|fuel IH]; intros start_time now; simpl;
    destruct (start_time <=? now); try apply keeps_ret.
  - intros w. apply evolves_refl.
  - apply keeps_bind; [apply keeps_fill_gaps_body | intros sn; apply IH].
Qed.

Lemma keeps_fill_gaps fuel horizon : keeps (fill_gaps env fuel horizon).
Proof.
  unfold fill_gaps.
  apply keeps_bind; [apply keeps_now_utc | intros now].
  apply keeps_bind; [apply keeps_get_max_timestamp | intros m].
  apply keeps_bind; [apply keeps_fill_gaps_loop | intros _; apply keeps_ret].
Qed.

Lemma keeps_on_recv_error fuel l : keeps (on_recv_error env fuel l).
Proof.
  unfold on_recv_error.
  apply keeps_bind.
  - unfold mark_outage. destruct (when_outage_occurred l) as [t|];
      [destruct (t =? 0)|]; try apply keeps_now_utc; apply keeps_ret.
  - intros outage. apply keeps_bind; [apply keeps_now_utc | intros now].
    apply keeps_bind; [apply keeps_fill_gaps | intros _; apply keeps_ret].
Qed.

Lemma keeps_on_frame l text : keeps (on_frame env l text).
Proof.
  unfold on_frame.
  apply keeps_bind; [apply keeps_json_loads | intros data].
  destruct (f_table data) as [table|]; [|apply keeps_ret].
  destruct (f_action data) as [action|]; [|apply keeps_ret].
  destruct (_ && _).
  { apply keeps_bind; [apply keeps_log_live | intros _; apply keeps_ret]. }
  destruct (negb _); [apply keeps_ret|].
  destruct (f_data data) as [payload|]; [|apply keeps_ret].
  destruct (_ <=? 0); [apply keeps_ret|].
  cbv zeta.
  destruct (lb_timestamp _) as [text'|]; [|apply keeps_ret].
  destruct (lb_symbol _) as [sym|]; [|apply keeps_ret].
  destruct (negb _); [apply keeps_ret|].
  apply keeps_bind; [apply keeps_iso8601_parse_date | intros t].
  apply keeps_bind; [apply keeps_log_live | intros _].
  apply keeps_bind; [apply keeps_insert_trade_bucket | intros _; apply keeps_ret].
Qed.

Lemma keeps_reconnect_if_closed l : keeps (reconnect_if_closed env l).
Proof.
  unfold reconnect_if_closed.
  apply keeps_bind; [apply keeps_websocket_open | intros o].
  apply keeps_bind.
  - destruct (negb o); [apply keeps_websockets_connect | apply keeps_ret].
  - intros _. apply keeps_bind; [apply keeps_websocket_open | intros o'; apply keeps_ret].
Qed.

Lemma keeps_receive fuel l : keeps (receive env fuel l).
Proof.
  unfold receive.
  apply keeps_bind.
  - apply keeps_try_except.
    + apply keeps_bind; [apply keeps_websocket_recv | intros a; apply keeps_ret].
    + intros e. apply keeps_bind; [apply keeps_on_recv_error | intros a; apply keeps_ret].
  - intros [l'|text]; [apply keeps_ret | apply keeps_on_frame].
Qed.

Lemma keeps_capture_body fuel l : keeps (capture_body env fuel l).
Proof.
  unfold capture_body.
  apply keeps_bind; [apply keeps_reconnect_if_closed | intros l'; apply keeps_receive].
Qed.

Lemma keeps_capture_loop n fuel : forall l, keeps (capture_loop env n fuel l).
Proof.
  induction n as [|n IH]; intros l; simpl.
  - intros w. apply evolves_refl.
  - apply keeps_bind; [apply keeps_capture_body | intros l'; apply IH].
Qed.

Lemma keeps_capture_data n fuel : keeps (capture_data env n fuel).
Proof.
  unfold capture_data.
  apply keeps_bind; [apply keeps_fill_gaps | intros _].
  apply keeps_bind; [apply keeps_websockets_connect | intros _].
  apply keeps_capture_loop.
Qed.

End Keeps.

(** ** The store under whole runs *)

(** X1.  Whatever the environment does and however far a run gets, reconciling
    and capturing only append rows to the table: no row present at the start is
    removed, changed or moved. *)
Theorem store_is_append_only env n fuel horizon w :
  (exists rows,
     tradeBin1m (final_world (fill_gaps env fuel horizon w)) =
       (tradeBin1m w ++ rows)%list) /\
  (exists rows,
     tradeBin1m (final_world (capture_data env n fuel w)) =
       (tradeBin1m w ++ rows)%list).
Proof.
  split.
  - apply (keeps_fill_gaps env fuel horizon w).
  - apply (keeps_capture_data env n fuel w).
Qed.

(** X2.  If no two rows of the table share their [(timestamp_dt, symbol)]
    when a run starts, none do wherever it stops: a bucket that arrives twice,
    from two pages, from a page and the live feed, or from the feed twice, is
    stored once. *)
Theorem primary_key_is_kept env n fuel horizon w :
  NoDup (map primary_key (tradeBin1m w)) ->
  NoDup (map primary_key (tradeBin1m (final_world (fill_gaps env fuel horizon w)))) /\
  NoDup (map primary_key (tradeBin1m (final_world (capture_data env n fuel w)))).
Proof.
  intros Hnd. split.
  - apply (keeps_fill_gaps env fuel horizon w). exact Hnd.
  - apply (keeps_capture_data env n fuel w). exact Hnd.
Qed.

(** Every page holds the same bucket twice, and the feed delivers it again. *)
Definition repeating_env : Env :=
  mkEnv (fun k => t0 + 2 * Z.of_nat k) (fun _ => true)
        (fun _ _ => Some [bucket_at (t0 - 60); bucket_at (t0 - 60)])
        (fun _ => true) (fun _ => true)
        (fun k => match k with
                  | O => RecvText (Some (mkFrame (Some "tradeBin1m"%string)
                                           (Some "partial"%string) (Some [])))
                  | _ => RecvText (Some (mkFrame (Some "tradeBin1m"%string)
                                           (Some "insert"%string)
                                           (Some [mkLiveBucket (Some (Some (t0 - 60)))
                                                    (Some "XBTUSD"%string)
                                                    None None None None None None
                                                    None None None None None])))
                  end).

Lemma primary_key_is_kept_witness :
  NoDup (map primary_key
           (tradeBin1m (final_world (capture_data repeating_env 3 5 small_gap_world)))) /\
  tradeBin1m (final_world (capture_data repeating_env 3 5 small_gap_world)) =
    [row_of (bucket_at (t0 - 10*60)); row_of (bucket_at (t0 - 60))].
Proof.
  split.
  - apply (@primary_key_is_kept repeating_env 3 5 default_horizon small_gap_world).
    simpl. constructor; [intros [] | constructor].
  - vm_compute. reflexivity.
Defined.

(** X3.  [fill_gaps] ends in no error, whatever MySQL and the REST endpoint
    do: with any fuel it has returned or is still in its loop. *)
Theorem fill_gaps_raises_nothing env fuel horizon w :
  (exists w', fill_gaps env fuel horizon w = Return tt w') \/
  (exists w', fill_gaps env fuel horizon w = OutOfFuel w').
Proof.
  destruct (fill_gaps env fuel horizon w) as [[] w' | e w' | w'] eqn:E.
  - left. exists w'. reflexivity.
  - exfalso. eapply fill_gaps_no_raise. exact E.
  - right. exists w'. reflexivity.
Qed.

(** ** Reading the maximum back *)

Lemma sql_max_nil t : sql_max t = None <-> t = [].
Proof.
  destruct t as [|r t]; simpl.
  - split; reflexivity.
  - destruct (sql_max t); split; discriminate.
Qed.

Lemma sql_max_is_max t : forall m,
  sql_max t = Some m ->
  In m (map timestamp_dt t) /\ forall r, In r t -> timestamp_dt r <= m.
Proof.
  induction t as [|r t IH]; intros m H; simpl in H.
  - discriminate.
  - destruct (sql_max t) as [m'|] eqn:E.
    + inversion H; subst m. destruct (IH m' eq_refl) as [Hin Hub].
      split.
      * simpl. destruct (Z.max_spec (timestamp_dt r) m') as [[_ ->] | [_ ->]]; auto.
      * intros r' [<- | Hr']; [lia|]. specialize (Hub r' Hr'). lia.
    + inversion H; subst m. apply sql_max_nil in E. subst t.
      split; [left; reflexivity|].
      intros r' [<- | []]. lia.
Qed.

(** X4.  When its query goes through, [get_max_timestamp_of_trade_buckets]
    returns nothing exactly when the table is empty, and otherwise the
    timestamp of a stored row that no stored row exceeds. *)
Theorem get_max_timestamp_is_greatest env w :
  mysql_up env (db_calls w) = true ->
  exists r,
    get_max_timestamp_of_trade_buckets env w = Return r (tick_db w) /\
    (r = None <-> tradeBin1m w = []) /\
    (forall m, r = Some m ->
       In m (map timestamp_dt (tradeBin1m w)) /\
       forall row, In row (tradeBin1m w) -> timestamp_dt row <= m).
Proof.
  intros Hup. exists (sql_max (tradeBin1m w)).
  rewrite get_max_timestamp_eq. unfold max_timestamp_in. rewrite Hup.
  split; [reflexivity|]. split.
  - apply sql_max_nil.
  - apply sql_max_is_max.
Qed.

Definition two_rows_world : World :=
  mkWorld [row_of (bucket_at (t0 - 60)); row_of (bucket_at (t0 - 10*60))]
          0 0 [] 0 0 0 [].

Lemma get_max_timestamp_is_greatest_witness :
  get_max_timestamp_of_trade_buckets quiet_env two_rows_world =
    Return (Some (t0 - 60)) (tick_db two_rows_world).
Proof.
  destruct (@get_max_timestamp_is_greatest quiet_env two_rows_world eq_refl)
    as [r [H _]].
  rewrite H. f_equal. vm_compute in H. inversion H. reflexivity.
Defined.

(** X5.  Once a bucket has been inserted while MySQL answers, the maximum
    read back next is at least the timestamp of that bucket, whether the
    insert added the row or found it there. *)
Theorem max_after_insert_covers_bucket env b w :
  mysql_up env (db_calls w) = true ->
  mysql_up env (S (db_calls w)) = true ->
  exists m w',
    (insert_trade_bucket env b ;;; get_max_timestamp_of_trade_buckets env) w =
      Return (Some m) w' /\
    timestamp b <= m.
Proof.
  intros Hup1 Hup2.
  unfold bind. rewrite insert_trade_bucket_eq, get_max_timestamp_eq.
  unfold max_timestamp_in.
  assert (Hdb : db_calls (after_insert env b w) = S (db_calls w)).
  { unfold after_insert. destruct (_ && _); reflexivity. }
  rewrite Hdb, Hup2.
  pose proof (after_insert_reached env b w Hup1) as Hkey.
  apply has_key_In in Hkey. apply in_map_iff in Hkey.
  destruct Hkey as [row [Hrow Hin]].
  destruct (sql_max (tradeBin1m (after_insert env b w))) as [m|] eqn:E.
  - exists m. eexists. split; [reflexivity|].
    destruct (sql_max_is_max _ E) as [_ Hub].
    specialize (Hub row Hin). inversion Hrow. simpl in *. lia.
  - apply sql_max_nil in E. rewrite E in Hin. destruct Hin.
Qed.

Lemma max_after_insert_covers_bucket_witness :
  exists w',
    (insert_trade_bucket quiet_env (bucket_at t0) ;;;
     get_max_timestamp_of_trade_buckets quiet_env) small_gap_world =
      Return (Some t0) w'.
Proof.
  destruct (@max_after_insert_covers_bucket quiet_env (bucket_at t0) small_gap_world
              eq_refl eq_refl) as [m [w' [H _]]].
  exists w'. rewrite H. vm_compute in H. inversion H. reflexivity.
Defined.

(** ** More on fill_gaps *)

Section MoreGaps.

Variable env : Env.

Lemma after_body_failed start_time w :
  fetch_at env start_time w = None ->
  tradeBin1m (after_body env start_time w) = tradeBin1m w.
Proof.
  intros H. unfold after_body. rewrite H. reflexivity.
Qed.

(** With every request failing and the clock never before [start_time], the
    loop spends all its fuel on the one window. *)
Lemma fill_gaps_loop_stuck start_time :
  (forall k s, Trade_getBucketed env k s = None) ->
  (forall k, start_time <= utcnow env k) ->
  forall fuel now w,
    start_time <= now ->
    exists w',
      fill_gaps_loop env fuel start_time now w = OutOfFuel w' /\
      requests w' = (requests w ++ repeat (start_time_str start_time) fuel)%list /\
      tradeBin1m w' = tradeBin1m w.
Proof.
  intros Hfail Hclock fuel.
  induction fuel as [|fuel IH]; intros now w Hle.
  - exists w. simpl. apply Z.leb_le in Hle. rewrite Hle.
    rewrite app_nil_r. repeat split.
  - rewrite fill_gaps_loop_step by exact Hle.
    assert (Hf : fetch_at env start_time w = None) by apply Hfail.
    assert (Hnext : next_start env start_time w = start_time)
      by (unfold next_start; rewrite Hf; reflexivity).
    rewrite Hnext.
    destruct (IH (utcnow env (clock_reads w)) (after_body env start_time w))
      as [w' [Hrun [Hreq Htab]]]; [apply Hclock|].
    exists w'. split; [exact Hrun|]. split.
    + rewrite Hreq, after_body_requests, <- app_assoc. reflexivity.
    + rewrite Htab. apply after_body_failed. exact Hf.
Qed.

Lemma final_world_then_ret A (m : M A) w :
  final_world ((m ;;; ret tt) w) = final_world (m w).
Proof.
  unfold bind, ret. destruct (m w); reflexivity.
Qed.

(** With every request succeeding, the requests of the loop are for windows
    two hours apart. *)
Lemma fill_gaps_loop_windows :
  (forall k s, Trade_getBucketed env k s <> None) ->
  forall fuel start_time now w,
    exists k,
      (k <= fuel)%nat /\
      requests (final_world (fill_gaps_loop env fuel start_time now w)) =
        (requests w ++
         map (fun j => start_time_str (start_time + 2*60*60 * Z.of_nat j)) (seq 0 k))%list.
Proof.
  intros Hok fuel.
  induction fuel as [|fuel IH]; intros start_time now w.
  - exists 0%nat. split; [lia|]. simpl.
    destruct (start_time <=? now); simpl; rewrite app_nil_r; reflexivity.
  - destruct (Z_lt_le_dec now start_time) as [Hlt | Hle].
    + exists 0%nat. split; [lia|].
      rewrite fill_gaps_loop_exit by exact Hlt. simpl. rewrite app_nil_r. reflexivity.
    + rewrite fill_gaps_loop_step by exact Hle.
      assert (Hnext : next_start env start_time w = start_time + 2*60*60).
      { unfold next_start, fetch_at.
        destruct (Trade_getBucketed env _ _) eqn:E; [reflexivity|].
        exfalso. eapply Hok. exact E. }
      rewrite Hnext.
      destruct (IH (start_time + 2*60*60) (utcnow env (clock_reads w))
                  (after_body env start_time w)) as [k [Hk Hreq]].
      exists (S k). split; [lia|].
      rewrite Hreq, after_body_requests, <- app_assoc. f_equal.
      cbn [seq map app]. f_equal.
      * f_equal. lia.
      * rewrite <- seq_shift, map_map. apply map_ext.
        intros j. f_equal. lia.
Qed.

Lemma has_key_evolves k w w' :
  evolves w w' ->
  has_key k (tradeBin1m w) = true -> has_key k (tradeBin1m w') = true.
Proof.
  intros [[rows Hrows] _] H. rewrite Hrows. unfold has_key in *.
  rewrite existsb_app, H. reflexivity.
Qed.

Lemma after_insert_all_evolves l w : evolves w (after_insert_all env l w).
Proof.
  pose proof (keeps_insert_all env l w) as H.
  rewrite insert_all_eq in H. exact H.
Qed.

Lemma after_insert_all_has_keys :
  (forall k, mysql_up env k = true) ->
  forall l w b, In b l ->
    has_key (primary_key (row_of b)) (tradeBin1m (after_insert_all env l w)) = true.
Proof.
  intros Hup l. induction l as [|a l IH]; intros w b Hin; [destruct Hin|].
  simpl. destruct Hin as [<- | Hin].
  - eapply has_key_evolves; [apply after_insert_all_evolves|].
    apply after_insert_reached. apply Hup.
  - apply IH. exact Hin.
Qed.

Lemma after_body_has_keys start_time w l b :
  (forall k, mysql_up env k = true) ->
  fetch_at env start_time w = Some l -> In b l ->
  has_key (primary_key (row_of b)) (tradeBin1m (after_body env start_time w)) = true.
Proof.
  intros Hup Hl Hin. unfold after_body. rewrite Hl.
  change (tradeBin1m (tick_clock ?x)) with (tradeBin1m x).
  apply after_insert_all_has_keys; assumption.
Qed.

(** With MySQL answering, every bucket of every page received by the loop is
    in the table when the loop stops. *)
Lemma fill_gaps_loop_stores_pages :
  (forall k, mysql_up env k = true) ->
  forall fuel start_time now w j s l b,
    (List.length (requests w) <= j)%nat ->
    nth_error (requests (final_world (fill_gaps_loop env fuel start_time now w))) j
      = Some s ->
    Trade_getBucketed env j s = Some l ->
    In b l ->
    has_key (primary_key (row_of b))
      (tradeBin1m (final_world (fill_gaps_loop env fuel start_time now w))) = true.
Proof.
  intros Hup fuel.
  induction fuel as [|fuel IH]; intros start_time now w j s l b Hj Hnth Hl Hin.
  - exfalso. simpl in Hnth. destruct (start_time <=? now); simpl in Hnth;
      apply nth_error_None in Hj; congruence.
  - destruct (Z_lt_le_dec now start_time) as [Hlt | Hle].
    + exfalso. rewrite fill_gaps_loop_exit in Hnth by exact Hlt. simpl in Hnth.
      apply nth_error_None in Hj. congruence.
    + rewrite fill_gaps_loop_step in * by exact Hle.
      set (w1 := after_body env start_time w) in *.
      set (r := fill_gaps_loop env fuel _ _ w1) in *.
      assert (Hev : evolves w1 (final_world r))
        by apply keeps_fill_gaps_loop.
      assert (Hreq1 : requests w1 = (requests w ++ [start_time_str start_time])%list)
        by apply after_body_requests.
      destruct (Nat.eq_dec j (List.length (requests w))) as [Heq | Hne].
      * rewrite Heq in Hnth, Hl.
        destruct Hev as [_ [_ [reqs Hreqs]]].
        rewrite Hreqs, Hreq1, <- app_assoc in Hnth.
        rewrite nth_error_app2 in Hnth by lia.
        rewrite Nat.sub_diag in Hnth. simpl in Hnth. inversion Hnth; subst s.
        eapply has_key_evolves; [apply keeps_fill_gaps_loop|].
        eapply after_body_has_keys; eassumption.
      * apply (IH _ _ w1 j s l b); try assumption.
        rewrite Hreq1, length_app. simpl. lia.
Qed.

End MoreGaps.

(** As [quiet_env], but every REST request fails. *)
Definition api_down_env : Env :=
  mkEnv (fun k => t0 + 2 * Z.of_nat k) (fun _ => true) (fun _ _ => None)
        (fun _ => true) (fun _ => true) (fun _ => RecvText (Some ack_frame)).

(** X6.  There is no bound on retries.  While every request fails and the
    clock is never before the first window, [fill_gaps] does not return
    however much fuel it gets: it requests that one window again and again
    and leaves the table as it is. *)
Theorem fill_gaps_retries_forever env horizon w :
  (forall k s, Trade_getBucketed env k s = None) ->
  (forall k, first_start env horizon w <= utcnow env k) ->
  forall fuel,
    exists w',
      fill_gaps env fuel horizon w = OutOfFuel w' /\
      requests w' =
        (requests w ++ repeat (start_time_str (first_start env horizon w)) fuel)%list /\
      tradeBin1m w' = tradeBin1m w.
Proof.
  intros Hfail Hclock fuel.
  destruct (@fill_gaps_loop_stuck env (first_start env horizon w) Hfail Hclock fuel
              (utcnow env (clock_reads w)) (tick_db (tick_clock w)))
    as [w' [Hrun [Hreq Htab]]]; [apply Hclock|].
  exists w'. rewrite fill_gaps_eq. unfold bind. rewrite Hrun.
  repeat split; assumption.
Qed.

Lemma fill_gaps_retries_forever_witness :
  exists w',
    fill_gaps api_down_env 4 (10*60) small_gap_world = OutOfFuel w' /\
    requests w' = [t0 - 9*60; t0 - 9*60; t0 - 9*60; t0 - 9*60].
Proof.
  destruct (@fill_gaps_retries_forever api_down_env (10*60) small_gap_world)
    with (fuel := 4%nat) as [w' [Hrun [Hreq _]]].
  - intros k s. reflexivity.
  - intros k.
    change (t0 - 9*60 <= t0 + 2 * Z.of_nat k). lia.
  - exists w'. split; [exact Hrun | exact Hreq].
Defined.

(** X7.  While every request succeeds, the windows requested by [fill_gaps]
    follow each other at two hours, the span of the 120 one-minute buckets of
    a page, from the first window on: none is requested twice and none is left
    out. *)
Theorem fill_gaps_windows_are_contiguous env fuel horizon w :
  (forall k s, Trade_getBucketed env k s <> None) ->
  exists k,
    (k <= fuel)%nat /\
    requests (final_world (fill_gaps env fuel horizon w)) =
      (requests w ++
       map (fun j => start_time_str (first_start env horizon w + 2*60*60 * Z.of_nat j))
           (seq 0 k))%list.
Proof.
  intros Hok.
  destruct (@fill_gaps_loop_windows env Hok fuel (first_start env horizon w)
              (utcnow env (clock_reads w)) (tick_db (tick_clock w))) as [k [Hk Hreq]].
  exists k. split; [exact Hk|].
  rewrite fill_gaps_eq, final_world_then_ret. exact Hreq.
Qed.

Lemma fill_gaps_windows_are_contiguous_witness :
  exists k,
    (k <= 9)%nat /\
    requests (final_world (fill_gaps quiet_env 9 (5*60*60) small_gap_world)) =
      map (fun j => start_time_str (t0 - 5*60*60 + 60 + 2*60*60 * Z.of_nat j)) (seq 0 k).
Proof.
  apply (@fill_gaps_windows_are_contiguous quiet_env 9 (5*60*60) small_gap_world).
  intros k s. discriminate.
Defined.

(** X8.  With MySQL answering, no bucket that the REST endpoint has handed
    to [fill_gaps] is lost: wherever the run stops, the table has a row with
    the key of every bucket of every page received, the [j]-th request being
    the one for [s]. *)
Theorem fill_gaps_stores_every_page env fuel horizon w j s l b :
  (forall k, mysql_up env k = true) ->
  (List.length (requests w) <= j)%nat ->
  nth_error (requests (final_world (fill_gaps env fuel horizon w))) j = Some s ->
  Trade_getBucketed env j s = Some l ->
  In b l ->
  has_key (primary_key (row_of b))
    (tradeBin1m (final_world (fill_gaps env fuel horizon w))) = true.
Proof.
  intros Hup Hj Hnth Hl Hin.
  rewrite fill_gaps_eq, final_world_then_ret in *.
  eapply fill_gaps_loop_stores_pages; eassumption.
Qed.

Lemma fill_gaps_stores_every_page_witness :
  has_key (t0 - 60, "XBTUSD"%string)
    (tradeBin1m (final_world (fill_gaps repeating_env 5 (10*60) small_gap_world))) = true.
Proof.
  apply (@fill_gaps_stores_every_page repeating_env 5 (10*60) small_gap_world
           0%nat (t0 - 9*60) [bucket_at (t0 - 60); bucket_at (t0 - 60)] (bucket_at (t0 - 60))).
  - intros k. reflexivity.
  - simpl. lia.
  - vm_compute. reflexivity.
  - reflexivity.
  - left. reflexivity.
Defined.

(** ** More on capture_data *)

Section MoreCapture.

Variable env : Env.

Lemma capture_loop_raise n fuel l w e w' :
  capture_body env fuel l w = Raise e w' ->
  capture_loop env (S n) fuel l w = Raise e w'.
Proof.
  intros H. simpl. unfold bind. rewrite H. reflexivity.
Qed.

Lemma capture_body_eq fuel l w l1 w1 :
  reconnect_if_closed env l w = Return l1 w1 ->
  capture_body env fuel l w = receive env fuel l1 w1.
Proof.
  intros H. unfold capture_body, bind. rewrite H. reflexivity.
Qed.

(** The world after the two readings of [websocket.open] at the head of an
    iteration in which no connection is opened. *)
Definition after_open_reads (w : World) : World :=
  with_live w (ws_connects w) (S (S (ws_open_reads w))) (ws_recvs w) (live_log w).

Lemma reconnect_if_open l w :
  ws_open env (ws_open_reads w) = true ->
  reconnect_if_closed env l w =
    Return (if ws_open env (S (ws_open_reads w))
            then mkLocals (rcvd_tradeBin1m_partial l) None else l)
           (after_open_reads w).
Proof.
  intros H. unfold reconnect_if_closed, bind, websocket_open, ret.
  rewrite H. reflexivity.
Qed.

End MoreCapture.

(** X9.  The table changes on a frame only in one way: a partial has been
    seen, the frame has a table and an action and is not the partial of
    [tradeBin1m], its payload is not empty, and the last record of the payload
    has a timestamp that parses and the symbol XBTUSD; the row of that record,
    and nothing else, is appended. *)
Theorem on_frame_inserts_only_last_record env l text w :
  tradeBin1m (final_world (on_frame env l text w)) <> tradeBin1m w ->
  exists data table action payload t,
    text = Some data /\
    rcvd_tradeBin1m_partial l = true /\
    f_table data = Some table /\ f_action data = Some action /\
    (String.eqb table "tradeBin1m" && String.eqb action "partial" = false) /\
    f_data data = Some payload /\ payload <> [] /\
    lb_timestamp (last payload None_bucket) = Some (Some t) /\
    lb_symbol (last payload None_bucket) = Some "XBTUSD"%string /\
    tradeBin1m (final_world (on_frame env l text w)) =
      (tradeBin1m w ++ [row_of (bucket_of (last payload None_bucket) t "XBTUSD")])%list.
Proof.
  intros Hne.
  remember (tradeBin1m (final_world (on_frame env l text w))) as T eqn:HT.
  unfold on_frame, json_loads, iso8601_parse_date, bind, ret, raise, log_live in HT.
  destruct text as [data|]; [|exfalso; apply Hne; rewrite HT; reflexivity].
  destruct (f_table data) as [table|] eqn:Etable;
    [|exfalso; apply Hne; rewrite HT; reflexivity].
  destruct (f_action data) as [action|] eqn:Eaction;
    [|exfalso; apply Hne; rewrite HT; reflexivity].
  destruct (String.eqb table "tradeBin1m" && String.eqb action "partial") eqn:Epartial;
    [exfalso; apply Hne; rewrite HT; reflexivity|].
  destruct (rcvd_tradeBin1m_partial l) eqn:Ercvd;
    [|exfalso; apply Hne; rewrite HT; reflexivity].
  cbn [negb] in HT.
  destruct (f_data data) as [payload|] eqn:Edata;
    [|exfalso; apply Hne; rewrite HT; reflexivity].
  destruct (Z.of_nat (List.length payload) <=? 0) eqn:Elen;
    [exfalso; apply Hne; rewrite HT; reflexivity|].
  cbv zeta in HT.
  destruct (lb_timestamp (last payload None_bucket)) as [stamp|] eqn:Estamp;
    [|exfalso; apply Hne; rewrite HT; reflexivity].
  destruct (lb_symbol (last payload None_bucket)) as [sym|] eqn:Esym;
    [|exfalso; apply Hne; rewrite HT; reflexivity].
  destruct (String.eqb sym "XBTUSD") eqn:Exbt;
    [|exfalso; apply Hne; rewrite HT; reflexivity].
  cbn [negb] in HT. apply String.eqb_eq in Exbt. subst sym.
  destruct stamp as [t|]; [|exfalso; apply Hne; rewrite HT; reflexivity].
  rewrite insert_trade_bucket_eq in HT. cbn [final_world] in HT.
  exists data, table, action, payload, t.
  repeat split; try reflexivity; try assumption.
  - intros ->. discriminate.
  - unfold after_insert in HT.
    destruct (mysql_up env _ && negb (has_key _ _));
      [rewrite HT; reflexivity | exfalso; apply Hne; rewrite HT; reflexivity].
Qed.

Lemma on_frame_inserts_only_last_record_witness :
  tradeBin1m (final_world (on_frame quiet_env (mkLocals true None)
                             (Some (insert_frame t0)) small_gap_world)) =
    [row_of (bucket_at (t0 - 10*60)); row_of (bucket_at t0)].
Proof.
  destruct (@on_frame_inserts_only_last_record quiet_env (mkLocals true None)
              (Some (insert_frame t0)) small_gap_world)
    as [data [table [action [payload [t [Htext [_ [_ [_ [_ [Hdata [_ [Hstamp [_ Hrow]]]]]]]]]]]]]].
  - vm_compute. discriminate.
  - rewrite Hrow. inversion Htext; subst data. inversion Hdata; subst payload.
    inversion Hstamp; subst t. reflexivity.
Defined.

(** X10.  Once a partial has been seen, a frame that is not the partial,
    whose payload ends in a record with a timestamp that parses and the symbol
    XBTUSD, is stored when MySQL answers and the key is new: the iteration
    ends normally, the locals are unchanged and the row of that record is
    appended. *)
Theorem valid_frame_is_stored env l data table action payload t w :
  rcvd_tradeBin1m_partial l = true ->
  f_table data = Some table -> f_action data = Some action ->
  String.eqb table "tradeBin1m" && String.eqb action "partial" = false ->
  f_data data = Some payload -> payload <> [] ->
  lb_timestamp (last payload None_bucket) = Some (Some t) ->
  lb_symbol (last payload None_bucket) = Some "XBTUSD"%string ->
  mysql_up env (db_calls w) = true ->
  has_key (t, "XBTUSD"%string) (tradeBin1m w) = false ->
  exists w',
    on_frame env l (Some data) w = Return l w' /\
    tradeBin1m w' =
      (tradeBin1m w ++ [row_of (bucket_of (last payload None_bucket) t "XBTUSD")])%list.
Proof.
  intros Hrcvd Htable Haction Hpartial Hdata Hne Hstamp Hsym Hup Hkey.
  unfold on_frame, json_loads, iso8601_parse_date, bind, ret, log_live.
  rewrite Htable, Haction, Hpartial, Hrcvd, Hdata. cbn [negb].
  assert (Hlen : (Z.of_nat (List.length payload) <=? 0) = false).
  { apply Z.leb_gt. destruct payload; [congruence | simpl; lia]. }
  rewrite Hlen. cbv zeta. rewrite Hstamp, Hsym, String.eqb_refl. cbn [negb].
  rewrite insert_trade_bucket_eq.
  eexists. split; [reflexivity|].
  unfold after_insert.
  change (db_calls (with_live w ?a ?b ?c ?d)) with (db_calls w).
  change (tradeBin1m (with_live w ?a ?b ?c ?d)) with (tradeBin1m w).
  change (primary_key (row_of (bucket_of ?x t "XBTUSD"))) with (t, "XBTUSD"%string).
  rewrite Hup, Hkey. reflexivity.
Qed.

Lemma valid_frame_is_stored_witness :
  exists w',
    on_frame quiet_env (mkLocals true None) (Some (insert_frame t0)) small_gap_world =
      Return (mkLocals true None) w' /\
    tradeBin1m w' = [row_of (bucket_at (t0 - 10*60)); row_of (bucket_at t0)].
Proof.
  destruct (@valid_frame_is_stored quiet_env (mkLocals true None) (insert_frame t0)
              "tradeBin1m" "insert" [live_bucket_at t0] t0 small_gap_world)
    as [w' [Hrun Hrow]]; try reflexivity.
  - discriminate.
  - exists w'. split; [exact Hrun | exact Hrow].
Defined.

(** A connection that delivers a text that is not JSON. *)
Definition garbled_env : Env :=
  mkEnv (fun k => t0 + 2 * Z.of_nat k) (fun _ => true) (fun _ _ => Some [])
        (fun _ => true) (fun _ => true) (fun _ => RecvText None).

(** X11.  A text that [json.loads] rejects is not handled: [json.loads] is
    called after the [try], so the iteration, the loop and [capture_data] end
    with its error, and nothing is stored. *)
Theorem malformed_text_ends_capture env n fuel l w l1 w1 :
  reconnect_if_closed env l w = Return l1 w1 ->
  ws_recv env (ws_recvs w1) = RecvText None ->
  capture_loop env (S n) fuel l w = Raise JSONDecodeError (after_recv w1) /\
  tradeBin1m (after_recv w1) = tradeBin1m w.
Proof.
  intros Hhead Hrecv. split.
  - apply capture_loop_raise.
    rewrite (capture_body_eq env fuel l w Hhead).
    rewrite (receive_text_eq env fuel l1 w1 Hrecv). reflexivity.
  - unfold reconnect_if_closed, bind, websocket_open, websockets_connect, ret in Hhead.
    destruct (negb (ws_open env (ws_open_reads w))); simpl in Hhead;
      [destruct (ws_connect env (ws_connects w))|];
      inversion Hhead; reflexivity.
Qed.

Lemma malformed_text_ends_capture_witness :
  capture_loop garbled_env 3 5 (mkLocals false None) empty_world =
    Raise JSONDecodeError (after_recv (after_open_reads empty_world)).
Proof.
  apply (@malformed_text_ends_capture garbled_env 2 5 (mkLocals false None) empty_world
           (mkLocals false None) (after_open_reads empty_world)).
  - reflexivity.
  - reflexivity.
Defined.

(** X12.  Once a partial has been seen, a record for XBTUSD whose timestamp
    [iso8601.parse_date] rejects is not skipped like a record without
    timestamp: the error of the parser is raised outside the [try] and ends
    the iteration, and with it [capture_data]; nothing is stored. *)
Theorem unparsable_timestamp_ends_capture env n fuel l w l1 w1
    data table action payload :
  reconnect_if_closed env l w = Return l1 w1 ->
  ws_recv env (ws_recvs w1) = RecvText (Some data) ->
  rcvd_tradeBin1m_partial l1 = true ->
  f_table data = Some table -> f_action data = Some action ->
  String.eqb table "tradeBin1m" && String.eqb action "partial" = false ->
  f_data data = Some payload -> payload <> [] ->
  lb_timestamp (last payload None_bucket) = Some None ->
  lb_symbol (last payload None_bucket) = Some "XBTUSD"%string ->
  capture_loop env (S n) fuel l w = Raise ParseError (after_recv w1).
Proof.
  intros Hhead Hrecv Hrcvd Htable Haction Hpartial Hdata Hne Hstamp Hsym.
  apply capture_loop_raise.
  rewrite (capture_body_eq env fuel l w Hhead).
  rewrite (receive_text_eq env fuel l1 w1 Hrecv).
  unfold on_frame, json_loads, iso8601_parse_date, bind, ret, raise.
  rewrite Htable, Haction, Hpartial, Hrcvd, Hdata. cbn [negb].
  assert (Hlen : (Z.of_nat (List.length payload) <=? 0) = false).
  { apply Z.leb_gt. destruct payload; [congruence | simpl; lia]. }
  rewrite Hlen. cbv zeta. rewrite Hstamp, Hsym, String.eqb_refl. reflexivity.
Qed.

Definition bad_stamp_frame : Frame :=
  mkFrame (Some "tradeBin1m"%string) (Some "insert"%string)
    (Some [mkLiveBucket (Some None) (Some "XBTUSD"%string)
             None None None None None None None None None None None]).

Definition bad_stamp_env : Env :=
  mkEnv (fun k => t0 + 2 * Z.of_nat k) (fun _ => true) (fun _ _ => Some [])
        (fun _ => true) (fun _ => true) (fun _ => RecvText (Some bad_stamp_frame)).

Lemma unparsable_timestamp_ends_capture_witness :
  capture_loop bad_stamp_env 3 5 (mkLocals true None) empty_world =
    Raise ParseError (after_recv (after_open_reads empty_world)).
Proof.
  apply (@unparsable_timestamp_ends_capture bad_stamp_env 2 5 (mkLocals true None)
           empty_world (mkLocals true None) (after_open_reads empty_world)
           bad_stamp_frame "tradeBin1m" "insert"
           [mkLiveBucket (Some None) (Some "XBTUSD"%string)
              None None None None None None None None None None None]);
    try reflexivity.
  discriminate.
Defined.

(** X13.  When [recv] fails on a socket that is open, the failure starts a
    new outage whatever the marker held: the marker has just been cleared, it
    is set to the time of this failure, and [fill_gaps] is called with five
    minutes plus the time between the two readings of the clock. *)
Theorem failure_on_open_socket_starts_new_outage env fuel l w :
  ws_open env (ws_open_reads w) = true ->
  ws_open env (S (ws_open_reads w)) = true ->
  ws_recv env (ws_recvs w) = RecvRaises ->
  let outage := utcnow env (clock_reads w) in
  let now := utcnow env (S (clock_reads w)) in
  capture_body env fuel l w =
    (fill_gaps env fuel ((now - outage) + 5*60) ;;;
     ret (mkLocals (rcvd_tradeBin1m_partial l) (Some outage)))
      (tick_clock (tick_clock (after_recv (after_open_reads w)))).
Proof.
  intros Hopen1 Hopen2 Hrecv outage now.
  rewrite (@capture_body_eq env fuel l w _ _ (reconnect_if_open env l w Hopen1)).
  rewrite Hopen2.
  rewrite receive_error_eq by exact Hrecv.
  rewrite on_recv_error_eq. reflexivity.
Qed.

Lemma failure_on_open_socket_starts_new_outage_witness :
  capture_body outage_env 5 (mkLocals true (Some (t0 - 60*60))) empty_world =
    (fill_gaps outage_env 5 (t0 + 2 - t0 + 5*60) ;;; ret (mkLocals true (Some t0)))
      (tick_clock (tick_clock (after_recv (after_open_reads empty_world)))).
Proof.
  apply (@failure_on_open_socket_starts_new_outage outage_env 5
           (mkLocals true (Some (t0 - 60*60))) empty_world); reflexivity.
Defined.

(** ** Reconciliation and the socket *)

(** The live side of the world: connection attempts, readings of
    [websocket.open], receives, and the history. *)
Definition live_side (w : World) : nat * nat * nat * list LiveEvent :=
  (ws_connects w, ws_open_reads w, ws_recvs w, live_log w).

Lemma same_io_live_side w w' : same_io w w' -> live_side w' = live_side w.
Proof.
  intros [_ [_ [H1 [H2 [H3 H4]]]]]. unfold live_side. congruence.
Qed.

Lemma after_body_live_side env start_time w :
  live_side (after_body env start_time w) = live_side w.
Proof.
  unfold after_body. destruct (fetch_at env start_time w) as [l|]; [|reflexivity].
  change (live_side (tick_clock ?x)) with (live_side x).
  rewrite (same_io_live_side (after_insert_all_io env l _)). reflexivity.
Qed.

Lemma fill_gaps_loop_live_side env fuel : forall start_time now w,
  live_side (final_world (fill_gaps_loop env fuel start_time now w)) = live_side w.
Proof.
  induction fuel as [|fuel IH]; intros start_time now w.
  - simpl. destruct (start_time <=? now); reflexivity.
  - destruct (Z_lt_le_dec now start_time) as [Hlt | Hle].
    + rewrite fill_gaps_loop_exit by exact Hlt. reflexivity.
    + rewrite fill_gaps_loop_step by exact Hle.
      rewrite IH. apply after_body_live_side.
Qed.

(** X14.  Reconciliation never touches the socket: however long [fill_gaps]
    runs and however it stops, it has opened no connection and received no
    frame, so what the feed sends meanwhile is still to be received. *)
Theorem fill_gaps_leaves_socket_alone env fuel horizon w :
  let w' := final_world (fill_gaps env fuel horizon w) in
  ws_connects w' = ws_connects w /\
  ws_open_reads w' = ws_open_reads w /\
  ws_recvs w' = ws_recvs w /\
  live_log w' = live_log w.
Proof.
  intros w'.
  assert (H : live_side w' = live_side w).
  { unfold w'. rewrite fill_gaps_eq, final_world_then_ret.
    rewrite fill_gaps_loop_live_side. reflexivity. }
  unfold live_side in H. inversion H. repeat split; assumption.
Qed.

(** X15.  Until a partial has been seen, no frame changes the table; and
    the frame that sets the flag is the partial of [tradeBin1m] and no
    other. *)
Theorem frames_before_first_partial_are_dropped env l text w :
  rcvd_tradeBin1m_partial l = false ->
  tradeBin1m (final_world (on_frame env l text w)) = tradeBin1m w /\
  forall l' w',
    on_frame env l text w = Return l' w' ->
    (rcvd_tradeBin1m_partial l' = true <->
     exists data,
       text = Some data /\
       f_table data = Some "tradeBin1m"%string /\
       f_action data = Some "partial"%string).
Proof.
  intros Hl. split.
  - unfold on_frame, json_loads, bind, ret, raise, log_live.
    destruct text as [data|]; [|reflexivity].
    destruct (f_table data) as [table|]; [|reflexivity].
    destruct (f_action data) as [action|]; [|reflexivity].
    destruct (_ && _); [reflexivity|].
    rewrite Hl. reflexivity.
  - intros l' w' Hrun.
    unfold on_frame, json_loads, bind, ret, raise, log_live in Hrun.
    destruct text as [data|]; [|discriminate].
    destruct (f_table data) as [table|] eqn:Etable.
    2:{ inversion Hrun; subst l'. split; [congruence|].
        intros [d [Hd [Ht _]]]. inversion Hd; subst d. congruence. }
    destruct (f_action data) as [action|] eqn:Eaction.
    2:{ inversion Hrun; subst l'. split; [congruence|].
        intros [d [Hd [_ Ha]]]. inversion Hd; subst d. congruence. }
    destruct (String.eqb table "tradeBin1m" && String.eqb action "partial") eqn:Ep.
    + inversion Hrun; subst l'. simpl. split; [|reflexivity].
      intros _. apply andb_true_iff in Ep. destruct Ep as [E1 E2].
      apply String.eqb_eq in E1, E2. subst. exists data. auto.
    + rewrite Hl in Hrun. simpl in Hrun. inversion Hrun; subst l'.
      split; [congruence|].
      intros [d [Hd [Ht Ha]]]. inversion Hd; subst d.
      rewrite Etable in Ht. rewrite Eaction in Ha.
      inversion Ht; inversion Ha; subst.
      rewrite !String.eqb_refl in Ep. discriminate.
Qed.

Lemma frames_before_first_partial_are_dropped_witness :
  tradeBin1m (final_world (on_frame quiet_env (mkLocals false None)
                             (Some (insert_frame t0)) small_gap_world)) =
    tradeBin1m small_gap_world.
Proof.
  apply (@frames_before_first_partial_are_dropped quiet_env (mkLocals false None)
           (Some (insert_frame t0)) small_gap_world eq_refl).
Defined.
